(** * UOCFlix user table: a shallow embedding of [src/UOCFlix/src/user.c]

    The C functions of [user.c] are transcribed one by one.  Three features
    of C are made explicit:

    - _undefined behaviour_: a computation is an [outcome], either
      [Undefined] (a NULL or indeterminate pointer is read, an array is
      indexed outside its block, an [assert] fails) or [Ret v];
    - _allocation failure_: functions calling [malloc]/[realloc] run in the
      monad [M], whose state is the list of verdicts the allocator will give
      to the coming requests;
    - _indeterminate memory_: a [char*] field is a [char_ptr], which may be
      NULL, never assigned, a block that was allocated but never written, or
      a proper string; the local [maxOcurrences], read before it is ever
      assigned, is an argument of [user_getFavoriteGenre].

    Loops are recursive functions on the number of iterations left.  Counts
    and indices are unbounded ([nat], [Z]): [user.h] is not under src/, and
    no table, name or stack of this program comes near [INT_MAX] entries.
    The headers [user.h], [favorite.h] and the stack of [favorite.c] are
    not under src/ either; what the file needs of them is stated where it
    is used. *)

From Stdlib Require Import ZArith Lia Ascii.
From stdpp Require Import base list strings.

Open Scope Z_scope.
Open Scope nat_scope.

(** ** Outcomes and the allocator monad *)

Inductive outcome (A : Type) : Type :=
| Undefined
| Ret (a : A).
Arguments Undefined {A}.
Arguments Ret {A} a.

Definition obind {A B} (m : outcome A) (k : A -> outcome B) : outcome B :=
  match m with
  | Undefined => Undefined
  | Ret a => k a
  end.

(** The verdicts of the allocator for the coming requests, first request
    first; [true] grants the request.  Once the list is exhausted every
    request is granted, so [[]] is the allocator that never fails. *)
Abbreviation allocator := (list bool).

Definition M (A : Type) : Type := allocator -> outcome (A * allocator).

Definition ret {A} (a : A) : M A := fun h => Ret (a, h).

Definition bind {A B} (m : M A) (k : A -> M B) : M B :=
  fun h => match m h with
           | Undefined => Undefined
           | Ret (a, h') => k a h'
           end.

Definition lift {A} (m : outcome A) : M A :=
  fun h => match m with
           | Undefined => Undefined
           | Ret a => Ret (a, h)
           end.

(** One request to the allocator. *)
Definition request : M bool :=
  fun h => match h with
           | [] => Ret (true, [])
           | granted :: h' => Ret (granted, h')
           end.

Declare Scope outcome_scope.
Delimit Scope outcome_scope with outcome.
Notation "'let*' x ':=' m 'in' k" := (obind m (fun x => k))
  (at level 10, x name, m at level 100, k at level 200) : outcome_scope.
Notation "'let*' ' p ':=' m 'in' k" :=
  (obind m (fun x => match x with p => k end))
  (at level 10, p pattern, m at level 100, k at level 200) : outcome_scope.

Declare Scope alloc_scope.
Delimit Scope alloc_scope with alloc.
Notation "'let*' x ':=' m 'in' k" := (bind m (fun x => k))
  (at level 10, x name, m at level 100, k at level 200) : alloc_scope.
Notation "'let*' ' p ':=' m 'in' k" :=
  (bind m (fun x => match x with p => k end))
  (at level 10, p pattern, m at level 100, k at level 200) : alloc_scope.

(** ** Data model *)

(** The characters of a C string before its terminating NUL. *)
Abbreviation cstring := (list ascii).

Inductive char_ptr : Type :=
| NULL                     (* the null pointer *)
| Wild                     (* a pointer that was never assigned *)
| Unwritten                (* a block returned by malloc, never written *)
| Str (s : cstring).       (* a block holding the string s *)

(** Error codes returned by the functions of [user.c]. *)
Inductive tError : Type := OK | ERR_MEMORY_ERROR | ERR_DUPLICATED | ERR_NOT_FOUND.

Definition tError_eqb (a b : tError) : bool :=
  match a, b with
  | OK, OK | ERR_MEMORY_ERROR, ERR_MEMORY_ERROR
  | ERR_DUPLICATED, ERR_DUPLICATED | ERR_NOT_FOUND, ERR_NOT_FOUND => true
  | _, _ => false
  end.

(** Genres are the values of a C enumeration: integers, the eight genres
    being the indices [0..7] of the array [genreOcurrences]. *)
Abbreviation tGenre := Z.

Record tSeries := { genre : tGenre }.
(** [series] is a pointer in C; the record holds the series it points to. *)
Record tFilm := { series : tSeries }.
Record tFavorite := { film : tFilm }.

(** Modelled from the spec: the favourites stack of [favorite.c], which is
    not under src/, "treated as a given stack abstraction": a LIFO sequence,
    most recent entry first. *)
Abbreviation tFavoriteStack := (list tFavorite).

(** [favorites] is [None] when the field was never initialised. *)
Record tUser := {
  username : char_ptr;
  name : char_ptr;
  mail : char_ptr;
  favorites : option tFavoriteStack
}.

(** [elements] is [None] for the NULL pointer, [Some l] for a block holding
    the slots [l]; [size] is the element count the code keeps beside it. *)
Record tUserTable := {
  elements : option (list tUser);
  size : nat
}.

(** ** The favourites stack *)

Module FavoriteStack.

(** Modelled from the spec: favoriteStack_create leaves "an empty
    favorites stack". *)
Definition favoriteStack_create : tFavoriteStack := [].

(** Modelled from the spec: favoriteStack_free, "releases ... the favorites
    stack storage"; an indeterminate stack cannot be released. *)
Definition favoriteStack_free (s : option tFavoriteStack)
  : outcome tFavoriteStack :=
  match s with
  | None => Undefined
  | Some _ => Ret []
  end.

(** Modelled from the spec: favoriteStack_push, "most recent addition is
    first to be traversed/popped". *)
Definition favoriteStack_push (s : tFavoriteStack) (f : tFavorite)
  : tFavoriteStack := f :: s.

(** Modelled from the spec: favoriteStack_duplicate, "a duplicate of the
    favorites stack". *)
Definition favoriteStack_duplicate (s : option tFavoriteStack)
  : outcome tFavoriteStack :=
  match s with
  | None => Undefined
  | Some l => Ret l
  end.

Definition favoriteStack_empty (s : tFavoriteStack) : bool :=
  match s with [] => true | _ => false end.

Definition favoriteStack_pop (s : tFavoriteStack) : tFavoriteStack := tail s.

End FavoriteStack.
Import FavoriteStack.

(** ** Strings of the C library *)

Definition strlen (p : char_ptr) : outcome nat :=
  match p with
  | Str s => Ret (length s)
  | _ => Undefined
  end.

Definition code (c : ascii) : Z := Z.of_nat (nat_of_ascii c).

(** Zero exactly when the two strings are equal, else the sign of the first
    difference. *)
Fixpoint strcmp_chars (a b : cstring) : Z :=
  match a, b with
  | [], [] => 0
  | [], _ :: _ => -1
  | _ :: _, [] => 1
  | x :: a', y :: b' =>
      if Z.eqb (code x) (code y) then strcmp_chars a' b'
      else (code x - code y)
  end%Z.

Definition strcmp (p q : char_ptr) : outcome Z :=
  match p, q with
  | Str a, Str b => Ret (strcmp_chars a b)
  | _, _ => Undefined
  end.

(** [malloc] of a character buffer. *)
Definition malloc_chars : M char_ptr :=
  (let* granted := request in
   ret (if granted then Unwritten else NULL))%alloc.

(** [if (p != NULL) { free(p); p = NULL; }] *)
Definition release (p : char_ptr) : outcome char_ptr :=
  match p with
  | Wild => Undefined
  | _ => Ret NULL
  end.

Definition is_null (p : char_ptr) : bool :=
  match p with NULL => true | _ => false end.

(** ** Users *)

Definition user_init (object : tUser) (username name mail : char_ptr)
  : M (tError * tUser) :=
  (let* _ := lift (strlen username) in
   let* p_username := malloc_chars in
   let* _ := lift (strlen name) in
   let* p_name := malloc_chars in
   let* _ := lift (strlen mail) in
   let* p_mail := malloc_chars in
   if is_null p_username || is_null p_name || is_null p_mail then
     ret (ERR_MEMORY_ERROR,
          {| username := p_username; name := p_name; mail := p_mail;
             favorites := favorites object |})
   else
     (* strcpy into the three blocks, then favoriteStack_create *)
     ret (OK,
          {| username := username; name := name; mail := mail;
             favorites := Some favoriteStack_create |}))%alloc.

Definition user_free (object : tUser) : outcome tUser :=
  (let* p_username := release (username object) in
   let* p_name := release (name object) in
   let* p_mail := release (mail object) in
   let* s := favoriteStack_free (favorites object) in
   Ret {| username := p_username; name := p_name; mail := p_mail;
          favorites := Some s |})%outcome.

Definition user_equals (user1 user2 : tUser) : outcome bool :=
  (let* c := strcmp (username user1) (username user2) in
   if negb (Z.eqb c 0) then Ret false else
   let* c := strcmp (name user1) (name user2) in
   if negb (Z.eqb c 0) then Ret false else
   let* c := strcmp (mail user1) (mail user2) in
   if negb (Z.eqb c 0) then Ret false else
   Ret true)%outcome.

Definition user_cpy (dst src : tUser) : M (tError * tUser) :=
  (let* dst := lift (user_free dst) in
   let* '(_, dst) := user_init dst (username src) (name src) (mail src) in
   ret (OK, dst))%alloc.

(** ** The table of users *)

(** [table->elements[i]], read. *)
Definition elem (table : tUserTable) (i : nat) : outcome tUser :=
  match elements table with
  | None => Undefined
  | Some l => match l !! i with
              | None => Undefined
              | Some e => Ret e
              end
  end.

(** [table->elements[i]], written through its address. *)
Definition set_elem (table : tUserTable) (i : nat) (e : tUser)
  : outcome tUserTable :=
  match elements table with
  | None => Undefined
  | Some l => if i <? length l
              then Ret {| elements := Some (<[i:=e]> l); size := size table |}
              else Undefined
  end.

(** A slot of storage that was allocated and never written. *)
Definition raw_slot : tUser :=
  {| username := Wild; name := Wild; mail := Wild; favorites := None |}.

(** The block of [n] slots obtained from a successful [realloc] of a block
    holding [old]: the old contents up to the smaller size, then raw
    slots.  [malloc] is the case of no old block. *)
Definition block (n : nat) (old : list tUser) : list tUser :=
  take n old ++ replicate (n - length old) raw_slot.

(** [(tUser* )realloc(p, n * sizeof(tUser))]: NULL when the request is
    refused. *)
Definition realloc (p : option (list tUser)) (n : nat)
  : M (option (list tUser)) :=
  (let* granted := request in
   ret (if granted then Some (block n (default [] p)) else None))%alloc.

Definition malloc (n : nat) : M (option (list tUser)) := realloc None n.

Definition userTable_init : tUserTable := {| elements := None; size := 0 |}.

Definition userTable_free (table : tUserTable) : tUserTable :=
  {| elements := None; size := 0 |}.

(** The loop of [userTable_find] from index [i], with [n] iterations left
    ([n = table->size - i]). *)
Fixpoint find_loop (table : tUserTable) (key : char_ptr) (i n : nat)
  : outcome (option nat) :=
  match n with
  | 0 => Ret None
  | S n' =>
      (let* e := elem table i in
       let* c := strcmp (username e) key in
       if Z.eqb c 0 then Ret (Some i)
       else find_loop table key (S i) n')%outcome
  end.

(** The result is the index of the element pointed to, [None] for NULL. *)
Definition userTable_find (table : tUserTable) (key : char_ptr)
  : outcome (option nat) :=
  find_loop table key 0 (size table).

Definition userTable_add (table : tUserTable) (user : tUser)
  : M (tError * tUserTable) :=
  (let* found := lift (userTable_find table (username user)) in
   match found with
   | Some _ => ret (ERR_DUPLICATED, table)
   | None =>
       let* table :=
         (if size table =? 0 then
            let size' := 1 in
            let* p := malloc size' in
            ret {| elements := p; size := size' |}
          else
            let size' := size table + 1 in
            let* p := realloc (elements table) size' in
            ret {| elements := p; size := size' |}) in
       match elements table with
       | None => ret (ERR_MEMORY_ERROR, table)
       | Some _ =>
           let* slot := lift (elem table (size table - 1)) in
           let* '(_, slot) :=
             user_init slot (username user) (name user) (mail user) in
           let* table := lift (set_elem table (size table - 1) slot) in
           ret (OK, table)
       end
   end)%alloc.

(** How the loop of [userTable_remove] is left: by its [return], or by
    running to its end with the flag [found]. *)
Inductive loop_exit : Type :=
| Returned (e : tError)
| Finished (found : bool).

(** The loop of [userTable_remove] from index [i], with [n] iterations left. *)
Fixpoint remove_loop (table : tUserTable) (user : tUser) (found : bool)
    (i n : nat) : M (loop_exit * tUserTable) :=
  match n with
  | 0 => ret (Finished found, table)
  | S n' =>
      (if found then
         let* dst := lift (elem table (i - 1)) in
         let* src := lift (elem table i) in
         let* '(e, dst) := user_cpy dst src in
         let* table := lift (set_elem table (i - 1) dst) in
         if tError_eqb e ERR_MEMORY_ERROR then
           ret (Returned ERR_MEMORY_ERROR, table)
         else remove_loop table user found (S i) n'
       else
         let* e := lift (elem table i) in
         let* c := lift (strcmp (username e) (username user)) in
         if Z.eqb c 0 then remove_loop table user true (S i) n'
         else remove_loop table user found (S i) n')%alloc
  end.

Definition userTable_remove (table : tUserTable) (user : tUser)
  : M (tError * tUserTable) :=
  (let* '(exit, table) := remove_loop table user false 0 (size table) in
   match exit with
   | Returned e => ret (e, table)
   | Finished true =>
       let size' := size table - 1 in
       if size' =? 0 then
         ret (OK, {| elements := None; size := size' |})
       else
         let* p := realloc (elements table) size' in
         let table := {| elements := p; size := size' |} in
         match p with
         | None => ret (ERR_MEMORY_ERROR, table)
         | Some _ => ret (OK, table)
         end
   | Finished false => ret (ERR_NOT_FOUND, table)
   end)%alloc.

Definition userTable_size (table : tUserTable) : nat := size table.

(** The loop of [userTable_equals] from index [i], [n] iterations left. *)
Fixpoint equals_loop (userTable1 userTable2 : tUserTable) (i n : nat)
  : outcome bool :=
  match n with
  | 0 => Ret true
  | S n' =>
      (let* e := elem userTable2 i in
       let* found := userTable_find userTable1 (username e) in
       match found with
       | None => Ret false
       | Some _ => equals_loop userTable1 userTable2 (S i) n'
       end)%outcome
  end.

Definition userTable_equals (userTable1 userTable2 : tUserTable)
  : outcome bool :=
  if negb (size userTable1 =? size userTable2) then Ret false
  else equals_loop userTable1 userTable2 0 (size userTable1).

(** ** Name normalisation *)

Definition NUL : ascii := ascii_of_nat 0.

(** [<ctype.h>] in the "C" locale. *)
Definition isblank (c : ascii) : bool :=
  (nat_of_ascii c =? 32) || (nat_of_ascii c =? 9).

Definition toupper (c : ascii) : ascii :=
  let n := nat_of_ascii c in
  if (97 <=? n) && (n <=? 122) then ascii_of_nat (n - 32) else c.

Definition tolower (c : ascii) : ascii :=
  let n := nat_of_ascii c in
  if (65 <=? n) && (n <=? 90) then ascii_of_nat (n + 32) else c.

(** [p[i]] where [p] holds the string [s]: one of its characters, its
    terminator, or a byte outside the block. *)
Definition char_at (s : cstring) (i : nat) : outcome ascii :=
  match s !! i with
  | Some c => Ret c
  | None => if i =? length s then Ret NUL else Undefined
  end.

(** [while (isblank(name[nameStart])) nameStart++;] with at most [n] more
    increments. *)
Fixpoint skip_left (s : cstring) (nameStart n : nat) : outcome nat :=
  (let* c := char_at s nameStart in
   if isblank c then
     match n with
     | 0 => Undefined
     | S n' => skip_left s (S nameStart) n'
     end
   else Ret nameStart)%outcome.

(** [while (isblank(name[nameEnd])) nameEnd--;] where [nameEnd] is
    unsigned: decrementing [0] wraps around to [UINT_MAX], an index outside
    the block. *)
Fixpoint skip_right (s : cstring) (nameEnd : nat) : outcome nat :=
  (let* c := char_at s nameEnd in
   if isblank c then
     match nameEnd with
     | 0 => Undefined
     | S nameEnd' => skip_right s nameEnd'
     end
   else Ret nameEnd)%outcome.

(** [for (i = nameStart, j = 0; i <= nameEnd; i++, j++)
       trimmedName[j] = name[i];]
    with [n] iterations left; [trimmedName] holds the [j] characters
    written so far. *)
Fixpoint copy_loop (s : cstring) (i n : nat) (trimmedName : cstring)
  : outcome cstring :=
  match n with
  | 0 => Ret trimmedName
  | S n' =>
      (let* c := char_at s i in
       copy_loop s (S i) n' (trimmedName ++ [c]))%outcome
  end.

(** The capitalisation loop from index [i], [n] iterations left. *)
Fixpoint capitalize_loop (s : cstring) (i n : nat) (startOfWord : bool)
  : outcome cstring :=
  match n with
  | 0 => Ret s
  | S n' =>
      (let* c := char_at s i in
       if isblank c then capitalize_loop s (S i) n' true
       else if startOfWord then
              capitalize_loop (<[i := toupper c]> s) (S i) n' false
            else capitalize_loop (<[i := tolower c]> s) (S i) n' false)%outcome
  end.

Definition set_name (object : tUser) (p : char_ptr) : tUser :=
  {| username := username object; name := p; mail := mail object;
     favorites := favorites object |}.

Definition user_trimCapitalizeName (object : tUser) : M (tError * tUser) :=
  match name object with
  | Str s =>
      (let* nameStart := lift (skip_left s 0 (length s)) in
       (* nameEnd = strlen(name) - 1, unsigned *)
       let* nameEnd := lift (match length s with
                             | 0 => Undefined
                             | S nameEnd => skip_right s nameEnd
                             end) in
       let* granted := request in
       if negb granted then ret (ERR_MEMORY_ERROR, object)
       else
         let* trimmedName :=
           lift (copy_loop s nameStart (nameEnd + 1 - nameStart) []) in
         let* capitalized :=
           lift (capitalize_loop trimmedName 0 (length trimmedName) true) in
         ret (OK, set_name object (Str capitalized)))%alloc
  | _ => lift Undefined
  end.

(** ** Favourites *)

Definition set_favorites (object : tUser) (s : tFavoriteStack) : tUser :=
  {| username := username object; name := name object; mail := mail object;
     favorites := Some s |}.

Definition user_addFavorite (object : tUser) (film : tFilm)
  : M (tError * tUser) :=
  (let* granted := request in
   if negb granted then ret (ERR_MEMORY_ERROR, object)
   else
     match favorites object with
     | None => lift Undefined
     | Some s =>
         ret (OK, set_favorites object
                    (favoriteStack_push s {| film := film |}))
     end)%alloc.

(** [genreOcurrences[g]++] *)
Definition increment (genreOcurrences : list Z) (g : tGenre)
  : outcome (list Z) :=
  if (0 <=? g)%Z && (g <? Z.of_nat (length genreOcurrences))%Z
  then Ret (alter Z.succ (Z.to_nat g) genreOcurrences)
  else Undefined.

(** The [while] loop of [user_getFavoriteGenre]: the entry at the top is
    read, counted and popped until the duplicate is empty. *)
Fixpoint count_loop (tmpFavoriteStack : tFavoriteStack) (tmpGenre : tGenre)
    (genreOcurrences : list Z) : outcome (tGenre * list Z) :=
  match tmpFavoriteStack with
  | [] => Ret (tmpGenre, genreOcurrences)
  | first :: rest =>
      let tmpGenre := genre (series (film first)) in
      (let* genreOcurrences := increment genreOcurrences tmpGenre in
       count_loop rest tmpGenre genreOcurrences)%outcome
  end.

(** The [for] loop of [user_getFavoriteGenre] from index [i], [n]
    iterations left. *)
Fixpoint scan_loop (genreOcurrences : list Z) (i n : nat)
    (tmpGenre : tGenre) (maxOcurrences : Z) : tGenre :=
  match n with
  | 0 => tmpGenre
  | S n' =>
      if (nth i genreOcurrences 0 >? maxOcurrences)%Z
      then scan_loop genreOcurrences (S i) n' (Z.of_nat i)
             (nth i genreOcurrences 0%Z)
      else scan_loop genreOcurrences (S i) n' tmpGenre maxOcurrences
  end.

Section FavoriteGenre.

(** The sentinel of [tGenre], declared in a header that is not under
    src/. *)
Variable GENRE_NOT_FOUND : tGenre.

(** [maxOcurrences] is declared without an initialiser: the value it holds
    when the [for] loop first reads it is whatever the stack held, and is
    an argument here. *)
Definition user_getFavoriteGenre (maxOcurrences : Z) (object : tUser)
  : outcome tGenre :=
  (let* tmpFavoriteStack := favoriteStack_duplicate (favorites object) in
   let* '(tmpGenre, genreOcurrences) :=
     count_loop tmpFavoriteStack GENRE_NOT_FOUND
       [0; 0; 0; 0; 0; 0; 0; 0]%Z in
   Ret (scan_loop genreOcurrences 0 8 tmpGenre maxOcurrences))%outcome.

End FavoriteGenre.

(** ** Well-formed values *)

Definition is_string (p : char_ptr) : bool :=
  match p with Str _ => true | _ => false end.

(** A user as [user_init] leaves it on success. *)
Definition valid_user (u : tUser) : bool :=
  is_string (username u) && is_string (name u) && is_string (mail u)
  && bool_decide (is_Some (favorites u)).

(** The element sequence of a table. *)
Definition users (table : tUserTable) : list tUser :=
  default [] (elements table).

Definition usernames (table : tUserTable) : list char_ptr :=
  username <$> users table.

(** [size] is the length of the element sequence and every element is a
    valid user. *)
Definition valid_table (table : tUserTable) : bool :=
  (size table =? length (users table)) && forallb valid_user (users table).

#[global] Instance char_ptr_eq_dec : EqDecision char_ptr.
Proof. solve_decision. Defined.

(** The first index at or after [i] whose element has the username [key],
    [l] being the elements from [i] on. *)
Fixpoint index_of (key : char_ptr) (l : list tUser) (i : nat) : option nat :=
  match l with
  | [] => None
  | e :: l' =>
      if bool_decide (username e = key) then Some i
      else index_of key l' (S i)
  end.

(** What [user_init] writes into a slot on success: the three strings of
    [u] and an empty stack of favourites. *)
Definition copy_of (u : tUser) : tUser :=
  {| username := username u; name := name u; mail := mail u;
     favorites := Some favoriteStack_create |}.

(** An allocator that grants every request. *)
Definition grants_all (h : allocator) : bool := forallb id h.

(** The verdict the allocator gives to the [i]-th coming request. *)
Definition verdict (h : allocator) (i : nat) : bool := default true (h !! i).

(** A user that [user_free] can release: no field was left unassigned. *)
Definition releasable (u : tUser) : bool :=
  negb (bool_decide (username u = Wild))
  && negb (bool_decide (name u = Wild))
  && negb (bool_decide (mail u = Wild))
  && bool_decide (is_Some (favorites u)).

(** The three strings of a user are readable. *)
Definition has_strings (u : tUser) : bool :=
  is_string (username u) && is_string (name u) && is_string (mail u).

(** ** What the specification says of [trimCapitalizeName] *)

Definition blank (c : ascii) : Prop := isblank c = true.

(** [t] is [s] without its leading and trailing blanks: what was cut off is
    blank, and [t] begins and ends with a character that is not. *)
Definition trimmed_of (s t : cstring) : Prop :=
  exists l r,
    s = l ++ t ++ r /\ Forall blank l /\ Forall blank r /\
    (exists c, head t = Some c /\ isblank c = false) /\
    (exists c, last t = Some c /\ isblank c = false).

(** The character that replaces [c], found at index [i] of [t]: a blank is
    kept; the first character of a blank-delimited word is put in upper
    case, any further character of the word in lower case. *)
Definition recased (t : cstring) (i : nat) (c : ascii) : ascii :=
  if isblank c then c
  else match i with
       | 0 => toupper c
       | S i' => match t !! i' with
                 | Some p => if isblank p then toupper c else tolower c
                 | None => toupper c
                 end
       end.

Definition trimCapitalized (s r : cstring) : Prop :=
  exists t, trimmed_of s t /\ r = imap (recased t) t.

(** The name contains a character that is not blank. *)
Definition has_nonblank (s : cstring) : bool :=
  existsb (fun c => negb (isblank c)) s.

Definition chars (s : string) : cstring := String.list_ascii_of_string s.

(** ** What the specification says of [getFavoriteGenre] *)

Definition genre_of (f : tFavorite) : tGenre := genre (series (film f)).

(** How often the genre [g] occurs among the favourites [s]. *)
Fixpoint occurrences (g : tGenre) (s : tFavoriteStack) : Z :=
  match s with
  | [] => 0
  | f :: s' => (if Z.eqb (genre_of f) g then 1 else 0) + occurrences g s'
  end%Z.

(** Every favourite has one of the eight genres. *)
Definition genres_in_range (s : tFavoriteStack) : bool :=
  forallb (fun f => (0 <=? genre_of f)%Z && (genre_of f <? 8)%Z) s.

(** The tie-break as the specification words it: the favourites are visited
    in pop order with a running count per genre, and a genre becomes the
    winner when its running count is strictly greater than the current
    maximum; the winner is the first genre to reach the greatest count. *)
Fixpoint first_to_reach_max (s : tFavoriteStack) (count : tGenre -> Z)
    (winner : tGenre) (max : Z) : tGenre :=
  match s with
  | [] => winner
  | f :: s' =>
      let g := genre_of f in
      let n := (count g + 1)%Z in
      let count' := fun x => if Z.eqb x g then n else count x in
      if (n >? max)%Z then first_to_reach_max s' count' g n
      else first_to_reach_max s' count' winner max
  end.

Definition spec_getFavoriteGenre (GENRE_NOT_FOUND : tGenre)
    (s : tFavoriteStack) : tGenre :=
  first_to_reach_max s (fun _ => 0%Z) GENRE_NOT_FOUND 0%Z.

(** A favourite of the given genre. *)
Definition favorite_of (g : tGenre) : tFavorite :=
  {| film := {| series := {| genre := g |} |} |}.

(** ** Loop invariants *)

(** The flag [startOfWord] when the loop reaches index [i] of [t]. *)
Definition word_starts (t : cstring) (i : nat) : bool :=
  match i with
  | 0 => true
  | S i' => match t !! i' with
            | Some p => isblank p
            | None => true
            end
  end.

(** [genreOcurrences[k]], as the scan reads it. *)
Abbreviation count_at occ k := (nth k occ 0%Z).

(** What holds of [tmpGenre] and [maxOcurrences] when the scan reaches
    index [i], having started with the maximum [m0]. *)
Definition scan_inv (occ : list Z) (m0 : Z) (tmp0 : tGenre) (i : nat)
    (tmp : tGenre) (max : Z) : Prop :=
  (forall j, j < i -> (count_at occ j <= max)%Z) /\
  (max = m0 /\ tmp = tmp0 \/
   exists k, k < i /\ tmp = Z.of_nat k /\ max = count_at occ k /\
             (m0 < max)%Z /\ forall j, j < k -> (count_at occ j < max)%Z).

(** ** Sample data *)

Module Sample.

Definition user_of (u n m : string) : tUser :=
  {| username := Str (chars u); name := Str (chars n);
     mail := Str (chars m); favorites := Some [] |}.

Definition alice : tUser := user_of "alice" "Alice" "alice@uoc.edu".
Definition bob : tUser := user_of "bob" "Bob" "bob@uoc.edu".
Definition carol : tUser := user_of "carol" "Carol" "carol@uoc.edu".

Definition table_of (l : list tUser) : tUserTable :=
  {| elements := Some l; size := length l |}.

(** What a refused first allocation of [user_init] leaves in a slot that
    [user_free] had emptied. *)
Definition half_initialised : tUser :=
  {| username := NULL; name := Unwritten; mail := Unwritten;
     favorites := Some [] |}.

(** The same in a slot of fresh storage. *)
Definition half_initialised_raw : tUser :=
  {| username := NULL; name := Unwritten; mail := Unwritten;
     favorites := None |}.

End Sample.
Import Sample.

(** ** The shift of [userTable_remove] *)

(** What [user_cpy] leaves in its destination, given the verdicts on the
    three allocations of [user_init]. *)
Definition copied_slot (src : tUser) (h : allocator) : tUser :=
  if verdict h 0 && verdict h 1 && verdict h 2 then copy_of src
  else {| username := if verdict h 0 then Unwritten else NULL;
          name := if verdict h 1 then Unwritten else NULL;
          mail := if verdict h 2 then Unwritten else NULL;
          favorites := Some [] |}.

(** The slots written by the shift loop when it copies the elements [rest]
    one slot down, three allocations each. *)
Fixpoint shift_copies (rest : list tUser) (h : allocator) : list tUser :=
  match rest with
  | [] => []
  | src :: rest' => copied_slot src h :: shift_copies rest' (drop 3 h)
  end.

(** ** Tables reached while the allocator grants every request *)

(** What [user_init] leaves in a slot of fresh storage, given the verdicts
    on its three allocations. *)
Definition initialised_slot (u : tUser) (h : allocator) : tUser :=
  if verdict h 0 && verdict h 1 && verdict h 2 then copy_of u
  else {| username := if verdict h 0 then Unwritten else NULL;
          name := if verdict h 1 then Unwritten else NULL;
          mail := if verdict h 2 then Unwritten else NULL;
          favorites := None |}.

(** The element sequence after the element at index [k] was removed and
    the later ones were copied one slot down. *)
Definition removed (k : nat) (l : list tUser) : list tUser :=
  take k l ++ (copy_of <$> drop (S k) l).

(** The table [userTable_remove] leaves when the element at index [k] is
    the one removed and every request is granted. *)
Definition table_without (k : nat) (t : tUserTable) : tUserTable :=
  {| elements := if size t - 1 =? 0 then None
                 else Some (removed k (users t));
     size := size t - 1 |}.

(** The three strings of a user. *)
Definition strings_of (u : tUser) : char_ptr * char_ptr * char_ptr :=
  (username u, name u, mail u).

Inductive reachable_granted : tUserTable -> Prop :=
| reachable_init : reachable_granted userTable_init
| reachable_add table user h e table' h' :
    reachable_granted table ->
    has_strings user = true -> grants_all h = true ->
    userTable_add table user h = Ret (e, table', h') ->
    reachable_granted table'
| reachable_remove table user h e table' h' :
    reachable_granted table ->
    has_strings user = true -> grants_all h = true ->
    userTable_remove table user h = Ret (e, table', h') ->
    reachable_granted table'.

(** ** Tables reached whatever the allocator does *)

(** A slot in which [user_init] gave up: none of the three fields holds a
    string. *)
Definition blank_slot (e : tUser) : bool :=
  negb (is_string (username e)) && negb (is_string (name e))
  && negb (is_string (mail e)).

(** [user_init] writes the three strings or none of them. *)
Definition slot_ok (e : tUser) : bool := valid_user e || blank_slot e.

(** No string is the username of two elements. *)
Definition distinct_strings (l : list tUser) : Prop :=
  forall i j ei ej s,
    l !! i = Some ei -> l !! j = Some ej ->
    username ei = Str s -> username ej = Str s -> i = j.

Definition table_inv (t : tUserTable) : Prop :=
  match elements t with
  | None => True
  | Some l =>
      size t = length l /\ Forall (fun e => slot_ok e = true) l /\
      distinct_strings l
  end.

(** The tables reached from the empty one by calls that return, the
    allocator granting or refusing as it pleases. *)
Inductive reachable : tUserTable -> Prop :=
| reached_init : reachable userTable_init
| reached_add table user h e table' h' :
    reachable table -> has_strings user = true ->
    userTable_add table user h = Ret (e, table', h') ->
    reachable table'
| reached_remove table user h e table' h' :
    reachable table -> has_strings user = true ->
    userTable_remove table user h = Ret (e, table', h') ->
    reachable table'.

(** * Properties *)

(** ** Strings *)

Lemma code_inj x y : code x = code y -> x = y.
Proof.
  unfold code. intros H. apply Nat2Z.inj in H.
  rewrite <- (ascii_nat_embedding x), <- (ascii_nat_embedding y).
  by rewrite H.
Qed.

Lemma strcmp_chars_eq0 a b : strcmp_chars a b = 0%Z <-> a = b.
Proof.
  revert b. induction a as [|x a IH]; intros [|y b]; simpl; try easy.
  destruct (Z.eqb_spec (code x) (code y)) as [E|E].
  - apply code_inj in E. subst y. rewrite IH. split; congruence.
  - split; [lia | intros [= -> _]; congruence].
Qed.

Lemma strcmp_Str a b :
  strcmp (Str a) (Str b) = Ret (strcmp_chars a b).
Proof. reflexivity. Qed.

Lemma strcmp_eqb p k :
  is_string p = true ->
  exists c, strcmp p (Str k) = Ret c /\
            Z.eqb c 0 = bool_decide (p = Str k).
Proof.
  destruct p as [| | |s]; try discriminate. intros _.
  exists (strcmp_chars s k). split; [done|].
  destruct (Z.eqb_spec (strcmp_chars s k) 0) as [E|E];
    rewrite strcmp_chars_eq0 in E.
  - subst. by rewrite bool_decide_eq_true_2.
  - rewrite bool_decide_eq_false_2; [done | congruence].
Qed.

(** ** The allocator monad *)

Lemma bind_Ret {A B} (m : M A) (k : A -> M B) h a h' :
  m h = Ret (a, h') -> bind m k h = k a h'.
Proof. unfold bind. by intros ->. Qed.

Lemma bind_inv {A B} (m : M A) (k : A -> M B) h r :
  bind m k h = Ret r -> exists a h', m h = Ret (a, h') /\ k a h' = Ret r.
Proof.
  unfold bind. destruct (m h) as [|[a h']]; [done|]. eauto.
Qed.

Lemma lift_Ret {A} (a : A) h : lift (Ret a) h = Ret (a, h).
Proof. reflexivity. Qed.

Lemma lift_inv {A} (m : outcome A) h a h' :
  lift m h = Ret (a, h') -> m = Ret a /\ h' = h.
Proof. unfold lift. destruct m; [done|]. by intros [= -> ->]. Qed.

Ltac bind_inv H :=
  let a := fresh "a" in
  let h := fresh "h" in
  let E := fresh "E" in
  apply bind_inv in H as (a & h & E & H).

(** ** Reading a valid table *)

Lemma valid_user_username u : valid_user u = true -> is_string (username u) = true.
Proof. unfold valid_user. rewrite !andb_true_iff. tauto. Qed.

Lemma valid_table_size t : valid_table t = true -> size t = length (users t).
Proof. unfold valid_table. rewrite andb_true_iff, Nat.eqb_eq. tauto. Qed.

Lemma valid_table_users t :
  valid_table t = true -> Forall (fun u => valid_user u = true) (users t).
Proof.
  unfold valid_table. rewrite andb_true_iff, forallb_forall, Forall_forall.
  intros [_ H] x Hx. apply H. by apply list_elem_of_In.
Qed.

Lemma elem_users t i e : users t !! i = Some e -> elem t i = Ret e.
Proof.
  unfold elem, users. destruct (elements t) as [l|]; simpl.
  - by intros ->.
  - done.
Qed.

Lemma index_of_None key l i :
  index_of key l i = None <-> key ∉ username <$> l.
Proof.
  revert i. induction l as [|e l IH]; intros i; simpl.
  - split; [intros _; apply not_elem_of_nil | done].
  - rewrite not_elem_of_cons. case_bool_decide as E.
    + split; [done | intros [[] _]; done].
    + rewrite IH. split; [intros ?; split; [by intros -> | done] | tauto].
Qed.

Lemma index_of_Some key l i j :
  index_of key l i = Some j ->
  exists e, i <= j /\ l !! (j - i) = Some e /\ username e = key /\
            forall j' e', j' < j - i -> l !! j' = Some e' -> username e' <> key.
Proof.
  revert i. induction l as [|e l IH]; intros i; simpl; [done|].
  case_bool_decide as E.
  - intros [= <-]. exists e. rewrite Nat.sub_diag. repeat split; auto.
    intros j' e' Hj. lia.
  - intros H. destruct (IH _ H) as (e0 & Hle & Hl & Hk & Hmin).
    exists e0. replace (j - i) with (S (j - S i)) by lia.
    repeat split; auto; [lia|].
    intros [|j'] e' Hj; simpl; [congruence|].
    apply Hmin. lia.
Qed.

Lemma find_loop_index_of t k n i :
  Forall (fun u => valid_user u = true) (drop i (users t)) ->
  n = length (users t) - i ->
  find_loop t (Str k) i n = Ret (index_of (Str k) (drop i (users t)) i).
Proof.
  revert i. induction n as [|n IH]; intros i Hv Hn; simpl.
  - rewrite drop_ge by lia. done.
  - destruct (lookup_lt_is_Some_2 (users t) i) as [e He]; [lia|].
    rewrite (elem_users _ _ _ He). simpl.
    rewrite (drop_S _ _ _ He) in Hv |- *. simpl.
    apply Forall_cons in Hv as [Hve Hv].
    destruct (strcmp_eqb (username e) k) as (c & -> & Hc);
      [by apply valid_user_username|].
    simpl. rewrite Hc. case_bool_decide; [done|].
    apply IH; [done | lia].
Qed.

Lemma userTable_find_valid t k :
  valid_table t = true ->
  userTable_find t (Str k) = Ret (index_of (Str k) (users t) 0).
Proof.
  intros Hv. unfold userTable_find.
  rewrite (find_loop_index_of t k (size t) 0); [done | |].
  - by apply valid_table_users.
  - rewrite (valid_table_size t Hv). lia.
Qed.

(** ** Removing an absent user *)

Lemma remove_loop_absent t user k n i h :
  username user = Str k ->
  Forall (fun u => valid_user u = true) (drop i (users t)) ->
  n = length (users t) - i ->
  Str k ∉ username <$> drop i (users t) ->
  remove_loop t user false i n h = Ret (Finished false, t, h).
Proof.
  intros Hk. revert i. induction n as [|n IH]; intros i Hv Hn Hnot; simpl.
  - done.
  - destruct (lookup_lt_is_Some_2 (users t) i) as [e He]; [lia|].
    rewrite (drop_S _ _ _ He) in Hv, Hnot.
    apply Forall_cons in Hv as [Hve Hv].
    rewrite fmap_cons in Hnot. apply not_elem_of_cons in Hnot as [Hne Hnot].
    unfold bind at 1, lift at 1. rewrite (elem_users _ _ _ He).
    unfold bind at 1, lift at 1. rewrite Hk.
    destruct (strcmp_eqb (username e) k) as (c & -> & Hc);
      [by apply valid_user_username|].
    rewrite Hc, bool_decide_eq_false_2 by congruence.
    apply IH; [done | lia | done].
Qed.

(** C6.  Removing a user whose username does not occur in a valid table
    returns [ERR_NOT_FOUND] and leaves the table as it was: same [size],
    same element sequence.  The allocator is not consulted. *)
Theorem userTable_remove_absent (table : tUserTable) (user : tUser)
    (h : allocator) :
  valid_table table = true ->
  is_string (username user) = true ->
  username user ∉ usernames table ->
  userTable_remove table user h = Ret (ERR_NOT_FOUND, table, h).
Proof.
  intros Hv Hs Hnot. destruct (username user) as [| | |k] eqn:Hk; try done.
  unfold userTable_remove, bind.
  rewrite (remove_loop_absent table user k (size table) 0 h); try done.
  - by apply valid_table_users.
  - rewrite (valid_table_size _ Hv). lia.
Qed.

(** ** Equality of tables *)

Lemma equals_loop_forallb t1 t2 n i :
  valid_table t1 = true ->
  Forall (fun u => valid_user u = true) (drop i (users t2)) ->
  n = length (users t2) - i ->
  equals_loop t1 t2 i n =
  Ret (forallb (fun e => bool_decide (username e ∈ usernames t1))
         (drop i (users t2))).
Proof.
  intros Hv1. revert i. induction n as [|n IH]; intros i Hv Hn; simpl.
  - rewrite drop_ge by lia. done.
  - destruct (lookup_lt_is_Some_2 (users t2) i) as [e He]; [lia|].
    rewrite (elem_users _ _ _ He). simpl.
    rewrite (drop_S _ _ _ He) in Hv |- *. simpl.
    apply Forall_cons in Hv as [Hve Hv].
    pose proof (valid_user_username _ Hve) as Hs.
    destruct (username e) as [| | |k] eqn:Hk; try done.
    rewrite userTable_find_valid by done. simpl.
    destruct (index_of (Str k) (users t1) 0) as [j|] eqn:Hj.
    + rewrite bool_decide_eq_true_2.
      * apply IH; [done | lia].
      * destruct (decide (Str k ∈ usernames t1)) as [|Hn']; [done|].
        unfold usernames in Hn'. apply index_of_None with (i := 0) in Hn'.
        congruence.
    + apply index_of_None in Hj. by rewrite bool_decide_eq_false_2.
Qed.

Lemma userTable_equals_valid t1 t2 :
  valid_table t1 = true -> valid_table t2 = true ->
  exists b, userTable_equals t1 t2 = Ret b /\
    (b = true <->
     size t1 = size t2 /\ forall k, k ∈ usernames t2 -> k ∈ usernames t1).
Proof.
  intros Hv1 Hv2. unfold userTable_equals.
  destruct (Nat.eqb_spec (size t1) (size t2)) as [E|E]; simpl.
  - rewrite (equals_loop_forallb t1 t2 _ 0); try done.
    + eexists. split; [done|]. rewrite drop_0, forallb_forall.
      split.
      * intros H. split; [done|]. intros k Hk.
        apply list_elem_of_fmap in Hk as (e & -> & He).
        apply list_elem_of_In, H in He. by apply bool_decide_eq_true in He.
      * intros [_ H] e He. apply bool_decide_eq_true, H.
        apply list_elem_of_fmap_2. by apply list_elem_of_In.
    + by apply valid_table_users.
    + rewrite E, (valid_table_size _ Hv2). lia.
  - exists false. split; [done|]. split; [done | tauto].
Qed.

(** C9.  On valid tables [userTable_equals] returns true exactly when the
    sizes agree and every username of the second table occurs in the
    first; its result depends only on the usernames of each table up to
    their order, so neither the order of the elements nor their name, mail
    or favourites matter. *)
Theorem userTable_equals_iff (t1 t2 : tUserTable) :
  valid_table t1 = true -> valid_table t2 = true ->
  (exists b, userTable_equals t1 t2 = Ret b /\
     (b = true <->
      size t1 = size t2 /\ forall k, k ∈ usernames t2 -> k ∈ usernames t1))
  /\
  (forall t1' t2',
     valid_table t1' = true -> valid_table t2' = true ->
     usernames t1' ≡ₚ usernames t1 -> usernames t2' ≡ₚ usernames t2 ->
     userTable_equals t1' t2' = userTable_equals t1 t2).
Proof.
  intros Hv1 Hv2. split; [by apply userTable_equals_valid|].
  intros t1' t2' Hv1' Hv2' P1 P2.
  destruct (userTable_equals_valid t1 t2 Hv1 Hv2) as (b & -> & Hb).
  destruct (userTable_equals_valid t1' t2' Hv1' Hv2') as (b' & -> & Hb').
  f_equal. apply eq_true_iff_eq. rewrite Hb, Hb'.
  assert (Hsz : forall t, valid_table t = true -> size t = length (usernames t)).
  { intros t Ht. unfold usernames. rewrite length_fmap.
    by apply valid_table_size. }
  rewrite !Hsz by done. rewrite P1, P2.
  split; intros [-> H]; (split; [done|]); intros k.
  - rewrite <- P1, <- P2. apply H.
  - rewrite P1, P2. apply H.
Qed.

(** ** Copying a user *)

Lemma user_cpy_defined_OK dst src h e d h' :
  user_cpy dst src h = Ret (e, d, h') -> e = OK.
Proof.
  unfold user_cpy. intros H. bind_inv H. bind_inv H.
  destruct a0 as [e0 d0]. unfold ret in H. congruence.
Qed.

Lemma remove_loop_never_returns n :
  forall table user found i h e table' h',
    remove_loop table user found i n h <> Ret (Returned e, table', h').
Proof.
  induction n as [|n IH]; intros table user found i h e table' h' H;
    simpl in H.
  - unfold ret in H. destruct found; congruence.
  - destruct found.
    + bind_inv H. bind_inv H. bind_inv H. destruct a1 as [e1 d1].
      bind_inv H. apply user_cpy_defined_OK in E1. subst e1.
      simpl in H. by apply IH in H.
    + bind_inv H. bind_inv H.
      destruct (Z.eqb a0 0); by apply IH in H.
Qed.

Lemma request_verdict h : request h = Ret (verdict h 0, tail h).
Proof. by destruct h. Qed.

Lemma verdict_tail h i : verdict (tail h) i = verdict h (S i).
Proof. destruct h; [by destruct i | done]. Qed.

Lemma malloc_chars_verdict h :
  malloc_chars h = Ret (if verdict h 0 then Unwritten else NULL, tail h).
Proof. unfold malloc_chars, bind. by rewrite request_verdict. Qed.

Lemma user_init_run object u n m h :
  user_init object (Str u) (Str n) (Str m) h =
  Ret (if verdict h 0 && verdict h 1 && verdict h 2
       then (OK, {| username := Str u; name := Str n; mail := Str m;
                    favorites := Some [] |})
       else (ERR_MEMORY_ERROR,
             {| username := if verdict h 0 then Unwritten else NULL;
                name := if verdict h 1 then Unwritten else NULL;
                mail := if verdict h 2 then Unwritten else NULL;
                favorites := favorites object |}),
       drop 3 h).
Proof.
  unfold user_init, bind. simpl.
  rewrite !malloc_chars_verdict, !verdict_tail.
  replace (tail (tail (tail h))) with (drop 3 h)
    by (by destruct h as [|? [|? [|? ?]]]).
  by destruct (verdict h 0), (verdict h 1), (verdict h 2).
Qed.

Lemma user_free_run dst :
  releasable dst = true ->
  user_free dst = Ret {| username := NULL; name := NULL; mail := NULL;
                         favorites := Some [] |}.
Proof.
  unfold releasable, user_free. rewrite !andb_true_iff, !negb_true_iff.
  intros [[[Hu Hn] Hm] Hf].
  apply bool_decide_eq_false in Hu, Hn, Hm. apply bool_decide_eq_true in Hf.
  destruct Hf as [s Hs]. rewrite Hs.
  by destruct (username dst), (name dst), (mail dst).
Qed.

Lemma has_strings_inv u :
  has_strings u = true ->
  exists a b c, username u = Str a /\ name u = Str b /\ mail u = Str c.
Proof.
  unfold has_strings. rewrite !andb_true_iff. intros [[Hu Hn] Hm].
  destruct (username u), (name u), (mail u); try done.
  by eexists _, _, _.
Qed.

(** C10.  [user_cpy] answers [OK] whatever the allocator does: when one of
    the three allocations of the re-initialisation is refused, [user_init]
    answers [ERR_MEMORY_ERROR] and [user_cpy] still answers [OK], handing
    back the half-initialised destination; no run of [user_cpy] answers
    anything but [OK].  Hence the loop of
    [userTable_remove] is never left through its [return ERR_MEMORY_ERROR],
    and when [userTable_remove] answers [ERR_MEMORY_ERROR] the loop had run
    to its end and it is the final [realloc] that was refused. *)
Theorem user_cpy_always_OK (dst src : tUser) (h : allocator) :
  releasable dst = true -> has_strings src = true ->
  (exists dst0 e d h',
     user_free dst = Ret dst0 /\
     user_init dst0 (username src) (name src) (mail src) h = Ret (e, d, h') /\
     (e = ERR_MEMORY_ERROR <->
      verdict h 0 && verdict h 1 && verdict h 2 = false) /\
     user_cpy dst src h = Ret (OK, d, h'))
  /\
  (forall dst1 src1 h0 e d h',
     user_cpy dst1 src1 h0 = Ret (e, d, h') -> e = OK)
  /\
  (forall table user found i n h0 e table' h',
     remove_loop table user found i n h0 <> Ret (Returned e, table', h'))
  /\
  (forall table user h0 table' h',
     userTable_remove table user h0 = Ret (ERR_MEMORY_ERROR, table', h') ->
     exists table1,
       remove_loop table user false 0 (size table) h0
       = Ret (Finished true, table1, false :: h')
       /\ table' = {| elements := None; size := size table1 - 1 |}).
Proof.
  intros Hd Hs. split; [|split; [|split]].
  - destruct (has_strings_inv _ Hs) as (a & b & c & Ha & Hb & Hc).
    unfold user_cpy. rewrite (user_free_run _ Hd), Ha, Hb, Hc.
    erewrite bind_Ret by apply lift_Ret.
    erewrite bind_Ret by apply user_init_run.
    destruct (verdict h 0 && verdict h 1 && verdict h 2) eqn:V;
      eexists _, _, _, _; (split; [reflexivity|]);
      (split; [rewrite user_init_run, V; reflexivity|]);
      (split; [|reflexivity]); done.
  - intros dst1 src1 h0 e d h'. apply user_cpy_defined_OK.
  - intros. apply remove_loop_never_returns.
  - intros table user h0 table' h' H. unfold userTable_remove in H.
    bind_inv H. destruct a as [[e|[|]] table1].
    + by apply remove_loop_never_returns in E.
    + exists table1. destruct (size table1 - 1 =? 0); [unfold ret in H; congruence|].
      bind_inv H. unfold realloc in E0. bind_inv E0.
      unfold request in E1. unfold ret in E0, H.
      destruct h1 as [|[] h1]; simplify_eq; simpl in *; simplify_eq.
      done.
    + unfold ret in H. congruence.
Qed.

(** ** Adding a user *)

Lemma has_strings_username u :
  has_strings u = true -> is_string (username u) = true.
Proof. unfold has_strings. rewrite !andb_true_iff. tauto. Qed.

Lemma valid_user_has_strings u : valid_user u = true -> has_strings u = true.
Proof. unfold valid_user, has_strings. rewrite !andb_true_iff. tauto. Qed.

Lemma copy_of_valid u : has_strings u = true -> valid_user (copy_of u) = true.
Proof.
  unfold has_strings, valid_user. simpl. rewrite !andb_true_iff.
  intros [[? ?] ?]. repeat split; done.
Qed.

Lemma user_init_raw_slot u h :
  has_strings u = true ->
  user_init raw_slot (username u) (name u) (mail u) h
  = Ret (if verdict h 0 && verdict h 1 && verdict h 2
         then OK else ERR_MEMORY_ERROR,
         initialised_slot u h, drop 3 h).
Proof.
  intros (a & b & c & Ha & Hb & Hc)%has_strings_inv.
  rewrite Ha, Hb, Hc, user_init_run. unfold initialised_slot, copy_of.
  rewrite Ha, Hb, Hc. by destruct (verdict h 0 && verdict h 1 && verdict h 2).
Qed.

Lemma userTable_find_key t u :
  valid_table t = true -> has_strings u = true ->
  userTable_find t (username u) = Ret (index_of (username u) (users t) 0).
Proof.
  intros Hv Hs. apply has_strings_username in Hs.
  destruct (username u) as [| | |k]; try done.
  by apply userTable_find_valid.
Qed.

(** The whole of [userTable_add] on a valid table. *)
Lemma userTable_add_run t u h :
  valid_table t = true -> has_strings u = true ->
  userTable_add t u h =
  Ret (match index_of (username u) (users t) 0 with
       | Some _ => (ERR_DUPLICATED, t, h)
       | None =>
           if verdict h 0 then
             (OK, {| elements := Some (users t ++ [initialised_slot u (tail h)]);
                     size := size t + 1 |}, drop 4 h)
           else
             (ERR_MEMORY_ERROR, {| elements := None; size := size t + 1 |},
              tail h)
       end).
Proof.
  intros Hv Hs. unfold userTable_add.
  erewrite bind_Ret by (rewrite userTable_find_key by done; apply lift_Ret).
  destruct (index_of (username u) (users t) 0) as [j|]; [done|].
  pose proof (valid_table_size t Hv) as Hsz.
  assert (Hgrow :
    (if size t =? 0
     then (let* p := malloc 1 in ret {| elements := p; size := 1 |})%alloc
     else (let* p := realloc (elements t) (size t + 1) in
           ret {| elements := p; size := size t + 1 |})%alloc) h
    = Ret ({| elements := if verdict h 0 then Some (users t ++ [raw_slot])
                          else None;
              size := size t + 1 |}, tail h)).
  { destruct (Nat.eqb_spec (size t) 0) as [E|E];
      unfold malloc, realloc, bind, ret; rewrite request_verdict.
    - rewrite E. destruct (users t) as [|? ?] eqn:Hu; [|simpl in Hsz; lia].
      done.
    - unfold block. fold (users t). rewrite <- Hsz.
      rewrite take_ge by lia.
      replace (size t + 1 - size t) with 1 by lia. done. }
  erewrite bind_Ret by apply Hgrow.
  cbn [elements size].
  destruct (verdict h 0); [|done].
  assert (Hlast : (users t ++ [raw_slot]) !! (size t + 1 - 1) = Some raw_slot).
  { apply list_lookup_middle. lia. }
  erewrite bind_Ret.
  2:{ unfold elem. cbn [elements]. rewrite Hlast. apply lift_Ret. }
  erewrite bind_Ret by (by apply user_init_raw_slot).
  cbv beta iota. erewrite bind_Ret.
  2:{ unfold set_elem. cbn [elements size]. rewrite length_app.
      cbn [length].
      destruct (Nat.ltb_spec (size t + 1 - 1) (length (users t) + 1));
        [|lia]. apply lift_Ret. }
  unfold ret. do 2 f_equal.
  - f_equal. f_equal.
    replace (size t + 1 - 1) with (length (users t) + 0) by lia.
    by rewrite insert_app_r.
  - by destruct h as [|? [|? [|? [|? ?]]]].
Qed.

Lemma index_of_elem_of key l i :
  key ∈ username <$> l -> exists j, index_of key l i = Some j.
Proof.
  intros H. destruct (index_of key l i) as [j|] eqn:E; [by exists j|].
  by apply index_of_None in E.
Qed.

Lemma user_equals_copy_of u :
  has_strings u = true -> user_equals (copy_of u) u = Ret true.
Proof.
  intros (a & b & c & Ha & Hb & Hc)%has_strings_inv.
  unfold user_equals, copy_of. simpl. rewrite Ha, Hb, Hc, !strcmp_Str.
  simpl. rewrite !(proj2 (strcmp_chars_eq0 _ _) eq_refl). done.
Qed.

Lemma valid_table_intro l n :
  n = length l -> Forall (fun u => valid_user u = true) l ->
  valid_table {| elements := Some l; size := n |} = true.
Proof.
  intros -> Hl. unfold valid_table, users. simpl.
  rewrite Nat.eqb_refl. simpl. apply forallb_forall.
  rewrite Forall_forall in Hl. intros x Hx. apply Hl.
  by apply list_elem_of_In.
Qed.

(** X1.  Adding to a valid table a user whose username is new, with the slot and
    the three strings granted, answers [OK]; the table gains a copy of the
    user at its end, and looking the username up finds an element that
    [user_equals] holds equal to the user. *)
Theorem userTable_add_then_find (table : tUserTable) (user : tUser)
    (h : allocator) :
  valid_table table = true -> has_strings user = true ->
  username user ∉ usernames table ->
  verdict h 0 && verdict h 1 && verdict h 2 && verdict h 3 = true ->
  exists table' i e,
    userTable_add table user h = Ret (OK, table', drop 4 h) /\
    valid_table table' = true /\
    size table' = size table + 1 /\
    users table' = users table ++ [copy_of user] /\
    userTable_find table' (username user) = Ret (Some i) /\
    elem table' i = Ret e /\
    user_equals e user = Ret true.
Proof.
  intros Hv Hs Hnot Hh.
  apply andb_true_iff in Hh as [Hh H3]. apply andb_true_iff in Hh as [Hh H2].
  apply andb_true_iff in Hh as [H0 H1].
  pose proof (userTable_add_run table user h Hv Hs) as Hrun.
  unfold usernames in Hnot. apply (index_of_None _ _ 0) in Hnot.
  rewrite Hnot, H0 in Hrun.
  assert (Hslot : initialised_slot user (tail h) = copy_of user).
  { unfold initialised_slot. by rewrite !verdict_tail, H1, H2, H3. }
  rewrite Hslot in Hrun.
  set (table' := {| elements := Some (users table ++ [copy_of user]);
                    size := size table + 1 |}) in *.
  assert (Hv' : valid_table table' = true).
  { apply valid_table_intro.
    - rewrite length_app, (valid_table_size _ Hv). simpl. lia.
    - apply Forall_app. split; [by apply valid_table_users|].
      apply Forall_singleton. by apply copy_of_valid. }
  destruct (index_of_elem_of (username user) (users table') 0) as [i Hi].
  { unfold table', users. simpl. rewrite fmap_app.
    apply elem_of_app. right. simpl. apply list_elem_of_singleton. done. }
  destruct (index_of_Some _ _ _ _ Hi) as (e & _ & He & Hk & Hmin).
  rewrite Nat.sub_0_r in He.
  exists table', i, e. repeat split; try done.
  - by rewrite userTable_find_key, Hi.
  - by apply elem_users.
  - unfold table', users in He. simpl in He.
    apply lookup_app_Some in He as [He|[_ He]].
    + exfalso. apply index_of_None in Hnot. apply Hnot.
      rewrite <- Hk. apply list_elem_of_fmap_2.
      by apply list_elem_of_lookup_2 in He.
    + apply list_lookup_singleton_Some in He as [_ <-].
      by apply user_equals_copy_of.
Qed.

(** X2.  Adding a user whose username is already in a valid table answers
    [ERR_DUPLICATED] and leaves the table, its [size] included, as it was;
    the allocator is not consulted. *)
Theorem userTable_add_duplicated (table : tUserTable) (user : tUser)
    (h : allocator) :
  valid_table table = true -> has_strings user = true ->
  username user ∈ usernames table ->
  userTable_add table user h = Ret (ERR_DUPLICATED, table, h).
Proof.
  intros Hv Hs Hin. rewrite userTable_add_run by done.
  by destruct (index_of_elem_of _ _ 0 Hin) as [j ->].
Qed.

(** X3.  When the storage for the new slot is refused, [userTable_add] answers
    [ERR_MEMORY_ERROR] and leaves a table without storage whose [size] is
    one more than before. *)
Theorem userTable_add_refused (table : tUserTable) (user : tUser)
    (h : allocator) :
  valid_table table = true -> has_strings user = true ->
  username user ∉ usernames table ->
  userTable_add table user (false :: h)
  = Ret (ERR_MEMORY_ERROR,
         {| elements := None; size := size table + 1 |}, h).
Proof.
  intros Hv Hs Hnot. rewrite userTable_add_run by done.
  unfold usernames in Hnot. apply (index_of_None _ _ 0) in Hnot.
  by rewrite Hnot.
Qed.

(** ** Removing a user that is present *)

Lemma valid_user_releasable u : valid_user u = true -> releasable u = true.
Proof.
  unfold valid_user, releasable. rewrite !andb_true_iff.
  intros [[[Hu Hn] Hm] Hf]. repeat split; try done;
    apply negb_true_iff, bool_decide_eq_false_2; intros E;
    rewrite E in *; done.
Qed.

Lemma user_cpy_run dst src h :
  releasable dst = true -> has_strings src = true ->
  user_cpy dst src h = Ret (OK, copied_slot src h, drop 3 h).
Proof.
  intros Hd (a & b & c & Ha & Hb & Hc)%has_strings_inv.
  unfold user_cpy. rewrite (user_free_run _ Hd), Ha, Hb, Hc.
  erewrite bind_Ret by apply lift_Ret.
  erewrite bind_Ret by apply user_init_run.
  unfold copied_slot, copy_of. rewrite Ha, Hb, Hc.
  by destruct (verdict h 0 && verdict h 1 && verdict h 2).
Qed.

Lemma remove_loop_scan t user key k :
  username user = Str key ->
  forall n i h,
    Forall (fun u => valid_user u = true) (drop i (users t)) ->
    n = length (users t) - i ->
    index_of (Str key) (drop i (users t)) i = Some k ->
    remove_loop t user false i n h
    = remove_loop t user true (S k) (length (users t) - S k) h.
Proof.
  intros Hkey. induction n as [|n IH]; intros i h Hv Hn Hk.
  - rewrite drop_ge in Hk by lia. done.
  - destruct (lookup_lt_is_Some_2 (users t) i) as [e He]; [lia|].
    rewrite (drop_S _ _ _ He) in Hv, Hk.
    apply Forall_cons in Hv as [Hve Hv]. simpl in Hk.
    cbn [remove_loop].
    erewrite bind_Ret by (rewrite (elem_users _ _ _ He); apply lift_Ret).
    destruct (strcmp_eqb (username e) key) as (c & Hc & Hc0);
      [by apply valid_user_username|].
    erewrite bind_Ret by (rewrite Hkey, Hc; apply lift_Ret).
    rewrite Hc0. case_bool_decide.
    + injection Hk as <-. f_equal. lia.
    + apply IH; [done | lia | done].
Qed.

Lemma remove_loop_shift user sz rest :
  forall pre d h i,
    i = S (length pre) ->
    Forall (fun u => valid_user u = true) (d :: rest) ->
    remove_loop {| elements := Some (pre ++ d :: rest); size := sz |}
      user true i (length rest) h
    = Ret (Finished true,
           {| elements :=
                Some (pre ++ shift_copies rest h ++ [default d (last rest)]);
              size := sz |},
           drop (3 * length rest) h).
Proof.
  induction rest as [|s rest IH]; intros pre d h i Hi Hv.
  - simpl. by rewrite drop_0.
  - apply Forall_cons in Hv as [Hd Hv].
    pose proof Hv as Hv'. apply Forall_cons in Hv' as [Hs _].
    cbn [remove_loop length].
    erewrite bind_Ret.
    2:{ unfold elem. cbn [elements].
        rewrite (list_lookup_middle pre (s :: rest) d (i - 1)) by lia.
        apply lift_Ret. }
    erewrite bind_Ret.
    2:{ unfold elem. cbn [elements].
        replace (pre ++ d :: s :: rest) with ((pre ++ [d]) ++ s :: rest)
          by (by rewrite <- app_assoc).
        rewrite (list_lookup_middle (pre ++ [d]) rest s i)
          by (rewrite length_app; simpl; lia).
        apply lift_Ret. }
    erewrite bind_Ret.
    2:{ apply user_cpy_run; [by apply valid_user_releasable
                            | by apply valid_user_has_strings]. }
    cbv beta iota.
    erewrite bind_Ret.
    2:{ unfold set_elem. cbn [elements size].
        destruct (Nat.ltb_spec (i - 1) (length (pre ++ d :: s :: rest)))
          as [_|Hge]; [|rewrite length_app in Hge; simpl in Hge; lia].
        apply lift_Ret. }
    cbn [tError_eqb].
    replace (<[i - 1:=copied_slot s h]> (pre ++ d :: s :: rest))
      with ((pre ++ [copied_slot s h]) ++ s :: rest).
    2:{ replace (i - 1) with (length pre + 0) by lia.
        rewrite insert_app_r. simpl. by rewrite <- app_assoc. }
    rewrite (IH (pre ++ [copied_slot s h]) s (drop 3 h) (S i));
      [|rewrite length_app; simpl; lia | done].
    rewrite drop_drop. do 2 f_equal.
    + f_equal. f_equal. rewrite <- app_assoc. simpl. do 3 f_equal.
      rewrite last_cons. by destruct (last rest).
    + f_equal. lia.
Qed.

Lemma grants_all_verdict h i : grants_all h = true -> verdict h i = true.
Proof.
  unfold grants_all, verdict. rewrite forallb_forall. intros H.
  destruct (h !! i) as [b|] eqn:E; [|done]. simpl.
  apply list_elem_of_lookup_2, list_elem_of_In, H in E. done.
Qed.

Lemma grants_all_drop h n : grants_all h = true -> grants_all (drop n h) = true.
Proof.
  unfold grants_all. rewrite !forallb_forall. intros H b Hb. apply H.
  apply list_elem_of_In. apply list_elem_of_In in Hb.
  by apply (subseteq_drop n h).
Qed.

Lemma grants_all_tail h : grants_all h = true -> grants_all (tail h) = true.
Proof. destruct h; [done|]. apply (grants_all_drop (_ :: _) 1). Qed.

Lemma shift_copies_granted rest :
  forall h, grants_all h = true -> shift_copies rest h = copy_of <$> rest.
Proof.
  induction rest as [|s rest IH]; intros h Hh; simpl; [done|].
  rewrite IH by (by apply grants_all_drop). f_equal.
  unfold copied_slot. by rewrite !grants_all_verdict.
Qed.

(** The whole of [userTable_remove] on a valid table. *)
Lemma userTable_remove_run t u h :
  valid_table t = true -> has_strings u = true ->
  userTable_remove t u h =
  Ret (match index_of (username u) (users t) 0 with
       | None => (ERR_NOT_FOUND, t, h)
       | Some k =>
           let h1 := drop (3 * (size t - S k)) h in
           if size t - 1 =? 0 then
             (OK, {| elements := None; size := size t - 1 |}, h1)
           else if verdict h1 0 then
             (OK, {| elements :=
                       Some (take k (users t)
                             ++ shift_copies (drop (S k) (users t)) h);
                     size := size t - 1 |}, tail h1)
           else
             (ERR_MEMORY_ERROR,
              {| elements := None; size := size t - 1 |}, tail h1)
       end).
Proof.
  intros Hv Hs.
  destruct (index_of (username u) (users t) 0) as [k|] eqn:Hk.
  - pose proof (has_strings_username _ Hs) as Hstr.
    destruct (username u) as [| | |key] eqn:Hkey; try done.
    destruct (index_of_Some _ _ _ _ Hk) as (e & _ & He & Hue & _).
    rewrite Nat.sub_0_r in He.
    pose proof (valid_table_size _ Hv) as Hsz.
    pose proof (valid_table_users _ Hv) as Hall.
    pose proof (lookup_lt_Some _ _ _ He) as Hlt.
    assert (Hloop :
      remove_loop t u false 0 (size t) h
      = Ret (Finished true,
             {| elements :=
                  Some (take k (users t)
                        ++ shift_copies (drop (S k) (users t)) h
                        ++ [default e (last (drop (S k) (users t)))]);
                size := size t |},
             drop (3 * length (drop (S k) (users t))) h)).
    { rewrite (remove_loop_scan t u key k Hkey (size t) 0 h);
        [| by rewrite drop_0 | lia | by rewrite drop_0].
      destruct t as [[l|] sz]; [|by destruct k].
      change (users {| elements := Some l; size := sz |}) with l in *.
      cbn [size] in *.
      replace (length l - S k) with (length (drop (S k) l))
        by (rewrite length_drop; lia).
      rewrite <- (take_drop_middle l k e He) at 1.
      apply remove_loop_shift.
      - rewrite length_take. lia.
      - rewrite <- (drop_S _ _ _ He). by apply Forall_drop. }
    unfold userTable_remove.
    erewrite bind_Ret by apply Hloop.
    cbv beta iota. cbn [elements size].
    rewrite length_drop, <- Hsz.
    destruct (size t - 1 =? 0) eqn:E0; [done|].
    apply Nat.eqb_neq in E0.
    unfold realloc, bind, ret. rewrite request_verdict.
    destruct (verdict _ 0); [|done].
    do 4 f_equal. unfold block. simpl.
    set (rest := drop (S k) (users t)).
    assert (Hlen : length (take k (users t) ++ shift_copies rest h)
                   = size t - 1).
    { rewrite length_app, length_take.
      assert (Hsc : forall r h0, length (shift_copies r h0) = length r)
        by (induction r; intros; simpl; [done | by f_equal]).
      rewrite Hsc. unfold rest. rewrite length_drop. lia. }
    rewrite app_assoc, take_app_length' by done.
    rewrite length_app, Hlen. simpl.
    replace (size t - 1 - (size t - 1 + 1)) with 0 by lia.
    simpl. by rewrite app_nil_r.
  - pose proof (has_strings_username _ Hs) as Hstr.
    destruct (username u) as [| | |key] eqn:Hkey; try done.
    apply index_of_None in Hk.
    unfold userTable_remove.
    rewrite (bind_Ret _ _ h (Finished false, t) h); [reflexivity|].
    apply (remove_loop_absent t u key (size t) 0 h Hkey).
    + by apply valid_table_users.
    + rewrite (valid_table_size _ Hv). lia.
    + done.
Qed.

Lemma removed_strings k l :
  strings_of <$> removed k l = strings_of <$> delete k l.
Proof.
  unfold removed. rewrite delete_take_drop, !fmap_app. f_equal.
  rewrite <- list_fmap_compose. by apply list_fmap_ext.
Qed.

Lemma removed_usernames k l :
  username <$> removed k l = delete k (username <$> l).
Proof.
  rewrite <- list_fmap_delete. unfold removed.
  rewrite delete_take_drop, !fmap_app. f_equal.
  rewrite <- list_fmap_compose. by apply list_fmap_ext.
Qed.

Lemma removed_length k l : k < length l -> length (removed k l) = length l - 1.
Proof.
  intros Hk. unfold removed.
  rewrite length_app, length_fmap, length_take, length_drop. lia.
Qed.

Lemma removed_valid k l :
  Forall (fun u => valid_user u = true) l ->
  Forall (fun u => valid_user u = true) (removed k l).
Proof.
  intros Hl. unfold removed. apply Forall_app. split.
  - by apply Forall_take.
  - apply Forall_fmap. eapply Forall_impl; [by apply Forall_drop|].
    intros u Hu. by apply copy_of_valid, valid_user_has_strings.
Qed.

Lemma NoDup_delete_not_elem {A} (l : list A) k x :
  NoDup l -> l !! k = Some x -> x ∉ delete k l.
Proof.
  intros Hnd Hk. rewrite <- (take_drop_middle l k x Hk) in Hnd.
  apply NoDup_app in Hnd as (_ & Hdisj & Hnd).
  apply NoDup_cons in Hnd as [Hx _].
  rewrite delete_take_drop. intros [Hin|Hin]%elem_of_app; [|done].
  apply (Hdisj x Hin). by left.
Qed.

Lemma table_without_users k t :
  valid_table t = true -> k < size t ->
  users (table_without k t) = removed k (users t).
Proof.
  intros Hv Hk. pose proof (valid_table_size _ Hv) as Hsz.
  unfold table_without, users at 1. simpl.
  destruct (Nat.eqb_spec (size t - 1) 0) as [E|E]; [|done]. simpl.
  symmetry. apply nil_length_inv. rewrite removed_length; lia.
Qed.

Lemma table_without_valid k t :
  valid_table t = true -> k < size t ->
  valid_table (table_without k t) = true.
Proof.
  intros Hv Hk. pose proof (valid_table_size _ Hv) as Hsz.
  unfold valid_table. rewrite table_without_users by done.
  apply andb_true_iff. split.
  - apply Nat.eqb_eq. simpl. rewrite removed_length; lia.
  - apply forallb_forall. intros x Hx%list_elem_of_In.
    pose proof (removed_valid k _ (valid_table_users _ Hv)) as H.
    rewrite Forall_forall in H. by apply H.
Qed.

Lemma userTable_remove_granted t u h k :
  valid_table t = true -> has_strings u = true -> grants_all h = true ->
  index_of (username u) (users t) 0 = Some k ->
  exists h', userTable_remove t u h = Ret (OK, table_without k t, h') /\
             grants_all h' = true.
Proof.
  intros Hv Hs Hh Hk. rewrite userTable_remove_run, Hk by done.
  cbv zeta. unfold table_without.
  destruct (size t - 1 =? 0).
  - eexists. split; [done|]. by apply grants_all_drop.
  - rewrite grants_all_verdict by (by apply grants_all_drop).
    rewrite shift_copies_granted by done.
    eexists. split; [done|]. by apply grants_all_tail, grants_all_drop.
Qed.

(** X4.  With every request granted, removing from a valid table with distinct
    usernames a user whose username is present answers [OK]: [size] is one
    less, the element with that username is gone, the other elements keep
    their order and their username, name and mail, and looking the username
    up afterwards finds nothing. *)
Theorem userTable_remove_present (table : tUserTable) (user : tUser)
    (h : allocator) :
  valid_table table = true -> NoDup (usernames table) ->
  has_strings user = true -> username user ∈ usernames table ->
  grants_all h = true ->
  exists k e table' h',
    users table !! k = Some e /\ username e = username user /\
    userTable_remove table user h = Ret (OK, table', h') /\
    valid_table table' = true /\
    size table' + 1 = size table /\
    strings_of <$> users table' = strings_of <$> delete k (users table) /\
    NoDup (usernames table') /\
    userTable_find table' (username user) = Ret None.
Proof.
  intros Hv Hnd Hs Hin Hh.
  destruct (index_of_elem_of _ _ 0 Hin) as [k Hk].
  destruct (index_of_Some _ _ _ _ Hk) as (e & _ & He & Hue & _).
  rewrite Nat.sub_0_r in He.
  pose proof (valid_table_size _ Hv) as Hsz.
  pose proof (lookup_lt_Some _ _ _ He) as Hlt.
  destruct (userTable_remove_granted table user h k) as (h' & Hrun & _);
    try done.
  assert (Hu : usernames (table_without k table) = delete k (usernames table)).
  { unfold usernames. rewrite table_without_users by (done || lia).
    apply removed_usernames. }
  assert (Hv' : valid_table (table_without k table) = true)
    by (apply table_without_valid; [done | lia]).
  exists k, e, (table_without k table), h'.
  repeat split; try done.
  - simpl. lia.
  - rewrite table_without_users by (done || lia). apply removed_strings.
  - rewrite Hu.
    apply (sublist_NoDup _ (usernames table)); [done | apply sublist_delete].
  - rewrite userTable_find_key by done.
    f_equal. apply index_of_None. fold (usernames (table_without k table)).
    rewrite Hu, <- Hue. apply NoDup_delete_not_elem; [done|].
    unfold usernames. by rewrite list_lookup_fmap, He.
Qed.

(** X5.  While every request is granted, the tables reached from
    [userTable_init] by [userTable_add] and [userTable_remove] are valid and
    their usernames are pairwise distinct. *)
Theorem reachable_granted_unique (table : tUserTable) :
  reachable_granted table ->
  valid_table table = true /\ NoDup (usernames table).
Proof.
  induction 1 as [|t u h e t' h' Hr [Hv Hnd] Hs Hh Hrun
                  |t u h e t' h' Hr [Hv Hnd] Hs Hh Hrun].
  - split; [done | constructor].
  - rewrite userTable_add_run in Hrun by done.
    destruct (index_of (username u) (users t) 0) as [j|] eqn:Hj.
    + by injection Hrun as _ <- _.
    + rewrite grants_all_verdict in Hrun by done.
      injection Hrun as _ <- _.
      assert (Hslot : initialised_slot u (tail h) = copy_of u).
      { unfold initialised_slot.
        by rewrite !grants_all_verdict by (by apply grants_all_tail). }
      rewrite Hslot. split.
      * apply valid_table_intro.
        -- rewrite length_app, (valid_table_size _ Hv). simpl. lia.
        -- apply Forall_app. split; [by apply valid_table_users|].
           apply Forall_singleton. by apply copy_of_valid.
      * unfold usernames, users. simpl. rewrite fmap_app.
        apply NoDup_app. split; [done|]. split; [|apply NoDup_singleton].
        intros x Hx ->%list_elem_of_singleton.
        apply index_of_None in Hj. by apply Hj.
  - destruct (index_of (username u) (users t) 0) as [k|] eqn:Hk.
    + destruct (userTable_remove_granted t u h k) as (h1 & Hrun1 & _);
        try done.
      rewrite Hrun1 in Hrun. injection Hrun as _ <- _.
      destruct (index_of_Some _ _ _ _ Hk) as (e0 & _ & He & _).
      rewrite Nat.sub_0_r in He.
      pose proof (lookup_lt_Some _ _ _ He) as Hlt.
      rewrite <- (valid_table_size _ Hv) in Hlt.
      split; [by apply table_without_valid|].
      unfold usernames. rewrite table_without_users, removed_usernames by done.
      apply (sublist_NoDup _ (username <$> users t));
        [done | apply sublist_delete].
    + rewrite userTable_remove_run, Hk in Hrun by done.
      by injection Hrun as _ <- _.
Qed.

(** ** Tables reached whatever the allocator does *)

Lemma obind_inv {A B} (m : outcome A) (k : A -> outcome B) r :
  obind m k = Ret r -> exists a, m = Ret a /\ k a = Ret r.
Proof. destruct m as [|a]; [done|]. eauto. Qed.

Lemma strcmp_defined p q c : strcmp p q = Ret c -> is_string p = true.
Proof. by destruct p. Qed.

Lemma find_loop_defined t key n :
  forall i,
    find_loop t key i n = Ret None ->
    forall j, i <= j < i + n ->
      exists e, elem t j = Ret e /\ is_string (username e) = true.
Proof.
  induction n as [|n IH]; intros i H j Hj; [lia|].
  simpl in H. apply obind_inv in H as (e & He & H).
  apply obind_inv in H as (c & Hc & H).
  destruct (Z.eqb c 0); [done|].
  destruct (decide (j = i)) as [->|Hne].
  - exists e. split; [done|]. by eapply strcmp_defined.
  - apply (IH (S i) H). lia.
Qed.

Lemma user_cpy_defined_src dst src h r :
  user_cpy dst src h = Ret r -> is_string (username src) = true.
Proof.
  unfold user_cpy. intros H. bind_inv H. bind_inv H.
  unfold user_init in E0. bind_inv E0. apply lift_inv in E1 as [E1 _].
  by destruct (username src).
Qed.

Lemma elem_set_elem_ne t i d t1 j :
  set_elem t i d = Ret t1 -> j <> i -> elem t1 j = elem t j.
Proof.
  unfold set_elem, elem. destruct (elements t) as [l|]; [|done].
  destruct (i <? length l); [|done]. intros [= <-] Hne. simpl.
  by rewrite list_lookup_insert_ne.
Qed.

Lemma remove_loop_defined user n :
  forall t found i h r,
    remove_loop t user found i n h = Ret r ->
    forall j, i <= j < i + n ->
      exists e, elem t j = Ret e /\ is_string (username e) = true.
Proof.
  induction n as [|n IH]; intros t found i h r H j Hj; [lia|].
  simpl in H. destruct found.
  - bind_inv H. apply lift_inv in E as [Edst ->].
    bind_inv H. apply lift_inv in E as [Esrc ->].
    bind_inv H. destruct a1 as [e1 d1].
    bind_inv H. apply lift_inv in E0 as [Eset ->].
    pose proof (user_cpy_defined_src _ _ _ _ E) as Hsrc.
    apply user_cpy_defined_OK in E. subst e1. simpl in H.
    destruct (decide (j = i)) as [->|Hne]; [by exists a0|].
    destruct (IH _ _ _ _ _ H j) as (e & He & Hs); [lia|].
    exists e. split; [|done].
    rewrite <- He. symmetry. eapply elem_set_elem_ne; [done | lia].
  - bind_inv H. apply lift_inv in E as [Ee ->].
    bind_inv H. apply lift_inv in E as [Ec ->].
    destruct (decide (j = i)) as [->|Hne].
    + exists a. split; [done|]. by eapply strcmp_defined.
    + destruct (Z.eqb a0 0); apply (IH _ _ _ _ _ H); lia.
Qed.

Lemma slot_ok_string e :
  slot_ok e = true -> is_string (username e) = true -> valid_user e = true.
Proof.
  unfold slot_ok, blank_slot. intros H Hs. rewrite Hs in H. simpl in H.
  by rewrite orb_false_r in H.
Qed.

Lemma table_inv_valid t :
  table_inv t ->
  (forall j, j < size t ->
     exists e, elem t j = Ret e /\ is_string (username e) = true) ->
  valid_table t = true.
Proof.
  unfold table_inv, valid_table, users, elem.
  destruct (elements t) as [l|]; simpl.
  - intros (Hsz & Hok & _) Hall. rewrite Hsz, Nat.eqb_refl. simpl.
    apply forallb_forall. intros e He%list_elem_of_In.
    apply list_elem_of_lookup in He as [j Hj].
    pose proof (lookup_lt_Some _ _ _ Hj) as Hlt. rewrite <- Hsz in Hlt.
    destruct (Hall j Hlt) as (e' & He' & Hs). rewrite Hj in He'.
    injection He' as <-. apply slot_ok_string; [|done].
    rewrite Forall_forall in Hok. apply Hok.
    by apply list_elem_of_lookup_2 in Hj.
  - intros _ Hall. destruct (size t) as [|n]; [done|].
    destruct (Hall 0) as (e & He & _); [lia | done].
Qed.

Lemma valid_table_inv t :
  valid_table t = true -> NoDup (usernames t) -> table_inv t.
Proof.
  intros Hv Hnd. unfold table_inv.
  destruct (elements t) as [l|] eqn:El; [|done].
  assert (Hu : users t = l) by (unfold users; by rewrite El).
  split; [|split].
  - rewrite <- Hu. by apply valid_table_size.
  - rewrite <- Hu. eapply Forall_impl; [by apply valid_table_users|].
    intros e He. unfold slot_ok. by rewrite He.
  - intros i j ei ej s Hi Hj Hsi Hsj.
    unfold usernames in Hnd. rewrite Hu in Hnd.
    eapply (NoDup_lookup _ i j (Str s) Hnd);
      rewrite list_lookup_fmap; [rewrite Hi | rewrite Hj]; simpl; congruence.
Qed.

Lemma distinct_strings_snoc l slot :
  distinct_strings l ->
  (forall s, username slot = Str s -> Str s ∉ username <$> l) ->
  distinct_strings (l ++ [slot]).
Proof.
  intros Hd Hnew i j ei ej s Hi Hj Hsi Hsj.
  apply lookup_app_Some in Hi as [Hi|[Hil Hi]];
    apply lookup_app_Some in Hj as [Hj|[Hjl Hj]].
  - by eapply Hd.
  - apply list_lookup_singleton_Some in Hj as [_ <-].
    exfalso. apply (Hnew s Hsj). rewrite <- Hsi.
    apply list_elem_of_fmap_2. by apply list_elem_of_lookup_2 in Hi.
  - apply list_lookup_singleton_Some in Hi as [_ <-].
    exfalso. apply (Hnew s Hsi). rewrite <- Hsj.
    apply list_elem_of_fmap_2. by apply list_elem_of_lookup_2 in Hj.
  - apply list_lookup_singleton_Some in Hi as [Hi _].
    apply list_lookup_singleton_Some in Hj as [Hj _]. lia.
Qed.

Lemma initialised_slot_ok u h :
  has_strings u = true -> slot_ok (initialised_slot u h) = true.
Proof.
  intros Hs. unfold initialised_slot, slot_ok.
  destruct (verdict h 0 && verdict h 1 && verdict h 2).
  - by rewrite copy_of_valid.
  - apply orb_true_iff. right. unfold blank_slot. simpl.
    by destruct (verdict h 0), (verdict h 1), (verdict h 2).
Qed.

Lemma initialised_slot_username u h s :
  username (initialised_slot u h) = Str s -> username u = Str s.
Proof.
  unfold initialised_slot.
  destruct (verdict h 0 && verdict h 1 && verdict h 2); [done|].
  simpl. by destruct (verdict h 0).
Qed.

Lemma copied_slot_ok src h :
  has_strings src = true -> slot_ok (copied_slot src h) = true.
Proof.
  intros Hs. unfold copied_slot, slot_ok.
  destruct (verdict h 0 && verdict h 1 && verdict h 2).
  - by rewrite copy_of_valid.
  - apply orb_true_iff. right. unfold blank_slot. simpl.
    by destruct (verdict h 0), (verdict h 1), (verdict h 2).
Qed.

Lemma copied_slot_username src h s :
  username (copied_slot src h) = Str s -> username src = Str s.
Proof.
  unfold copied_slot.
  destruct (verdict h 0 && verdict h 1 && verdict h 2); [done|].
  simpl. by destruct (verdict h 0).
Qed.

Lemma shift_copies_lookup rest :
  forall h m e,
    shift_copies rest h !! m = Some e ->
    exists src h', rest !! m = Some src /\ e = copied_slot src h'.
Proof.
  induction rest as [|s rest IH]; intros h m e; simpl; [done|].
  destruct m as [|m]; simpl.
  - intros [= <-]. by exists s, h.
  - apply IH.
Qed.

Lemma shift_copies_length rest : forall h, length (shift_copies rest h) = length rest.
Proof. induction rest; intros; simpl; [done | by f_equal]. Qed.

(** Every string username of the shifted table is the username of the
    element of the old table it was copied from. *)
Lemma shifted_origin l k h p e s :
  k < length l ->
  (take k l ++ shift_copies (drop (S k) l) h) !! p = Some e ->
  username e = Str s ->
  exists e0, l !! (if p <? k then p else S p) = Some e0 /\
             username e0 = Str s.
Proof.
  intros Hk Hp Hs. apply lookup_app_Some in Hp as [Hp|[Hge Hp]].
  - apply lookup_take_Some in Hp as [Hp Hlt].
    destruct (Nat.ltb_spec p k); [|lia]. by exists e.
  - rewrite length_take in Hge, Hp.
    replace (k `min` length l) with k in * by lia.
    destruct (Nat.ltb_spec p k); [lia|].
    apply shift_copies_lookup in Hp as (src & h' & Hsrc & ->).
    rewrite lookup_drop in Hsrc.
    replace (S k + (p - k)) with (S p) in Hsrc by lia.
    exists src. split; [done|]. by eapply copied_slot_username.
Qed.

Lemma distinct_strings_shifted l k h :
  k < length l -> distinct_strings l ->
  distinct_strings (take k l ++ shift_copies (drop (S k) l) h).
Proof.
  intros Hk Hd i j ei ej s Hi Hj Hsi Hsj.
  destruct (shifted_origin l k h i ei s Hk Hi Hsi) as (ei0 & Hi0 & Hsi0).
  destruct (shifted_origin l k h j ej s Hk Hj Hsj) as (ej0 & Hj0 & Hsj0).
  pose proof (Hd _ _ _ _ _ Hi0 Hj0 Hsi0 Hsj0) as E.
  destruct (Nat.ltb_spec i k), (Nat.ltb_spec j k); lia.
Qed.

Lemma userTable_add_inv t u h e t' h' :
  table_inv t -> has_strings u = true ->
  userTable_add t u h = Ret (e, t', h') -> table_inv t'.
Proof.
  intros Hinv Hs Hrun. pose proof Hrun as Hrun0.
  unfold userTable_add in Hrun. bind_inv Hrun.
  apply lift_inv in E as [Efind ->].
  destruct a as [j|]; [unfold ret in Hrun; by injection Hrun as _ <- _|].
  clear Hrun.
  assert (Hv : valid_table t = true).
  { apply table_inv_valid; [done|]. intros j Hj.
    apply (find_loop_defined t (username u) (size t) 0 Efind). lia. }
  rewrite userTable_add_run in Hrun0 by done.
  rewrite userTable_find_key in Efind by done.
  injection Efind as Efind. rewrite Efind in Hrun0.
  destruct (verdict h 0); injection Hrun0 as _ <- _; [|done].
  unfold table_inv. simpl. split; [|split].
  - rewrite length_app, (valid_table_size _ Hv). simpl. lia.
  - apply Forall_app. split.
    + eapply Forall_impl; [by apply valid_table_users|].
      intros x Hx. unfold slot_ok. by rewrite Hx.
    + apply Forall_singleton. by apply initialised_slot_ok.
  - apply distinct_strings_snoc.
    + unfold table_inv in Hinv. unfold users.
      destruct (elements t) as [l|]; [by destruct Hinv as (_ & _ & ?)|].
      intros i j ei. by destruct i.
    + intros s Hslot%initialised_slot_username.
      rewrite <- Hslot. by apply index_of_None in Efind.
Qed.

Lemma userTable_remove_inv t u h e t' h' :
  table_inv t -> has_strings u = true ->
  userTable_remove t u h = Ret (e, t', h') -> table_inv t'.
Proof.
  intros Hinv Hs Hrun. pose proof Hrun as Hrun0.
  unfold userTable_remove in Hrun. bind_inv Hrun. clear Hrun.
  assert (Hv : valid_table t = true).
  { apply table_inv_valid; [done|]. intros j Hj.
    apply (remove_loop_defined u (size t) t false 0 h _ E). lia. }
  rewrite userTable_remove_run in Hrun0 by done.
  destruct (index_of (username u) (users t) 0) as [k|] eqn:Hk.
  - cbv zeta in Hrun0.
    destruct (size t - 1 =? 0); [by injection Hrun0 as _ <- _|].
    destruct (verdict _ 0); injection Hrun0 as _ <- _; [|done].
    destruct (index_of_Some _ _ _ _ Hk) as (e0 & _ & He0 & _).
    rewrite Nat.sub_0_r in He0.
    pose proof (lookup_lt_Some _ _ _ He0) as Hlt.
    pose proof (valid_table_size _ Hv) as Hsz.
    unfold table_inv. simpl. split; [|split].
    + rewrite length_app, length_take, shift_copies_length, length_drop. lia.
    + apply Forall_app. split.
      * apply Forall_take. eapply Forall_impl; [by apply valid_table_users|].
        intros x Hx. unfold slot_ok. by rewrite Hx.
      * apply Forall_forall. intros x Hx.
        apply list_elem_of_lookup in Hx as [m Hm].
        apply shift_copies_lookup in Hm as (src & hm & Hsrc & ->).
        apply copied_slot_ok, valid_user_has_strings.
        pose proof (valid_table_users _ Hv) as Hall.
        rewrite Forall_forall in Hall. apply Hall.
        apply list_elem_of_lookup_2 in Hsrc.
        by apply (subseteq_drop (S k) (users t)).
    + apply distinct_strings_shifted; [done|].
      unfold table_inv in Hinv. unfold users.
      destruct (elements t) as [l|]; [by destruct Hinv as (_ & _ & ?)|].
      intros i j ei. by destruct i.
  - by injection Hrun0 as _ <- _.
Qed.

(** X7.  Whatever the allocator grants or refuses, in every table reached
    from [userTable_init] by calls of [userTable_add] and [userTable_remove]
    that return, no string is the username of two elements: an element
    either holds its three strings or, where [user_init] gave up, none. *)
Theorem reachable_distinct_strings (table : tUserTable) :
  reachable table -> table_inv table.
Proof.
  induction 1 as [|t u h e t' h' _ IH Hs Hrun|t u h e t' h' _ IH Hs Hrun].
  - done.
  - by eapply userTable_add_inv.
  - by eapply userTable_remove_inv.
Qed.

(** ** Name normalisation *)

Lemma char_at_lookup s i c : s !! i = Some c -> char_at s i = Ret c.
Proof. unfold char_at. by intros ->. Qed.

Lemma skip_left_blanks l c rest n k :
  Forall blank l -> isblank c = false ->
  k <= length l -> length l - k <= n ->
  skip_left (l ++ c :: rest) k n = Ret (length l).
Proof.
  intros Hl Hc. revert k. induction n as [|n IH]; intros k Hk Hn.
  - assert (k = length l) as -> by lia. simpl.
    rewrite (char_at_lookup _ _ c); [simpl; by rewrite Hc|].
    by apply list_lookup_middle.
  - destruct (decide (k = length l)) as [->|Hne].
    + simpl. rewrite (char_at_lookup _ _ c); [simpl; by rewrite Hc|].
      by apply list_lookup_middle.
    + destruct (lookup_lt_is_Some_2 l k) as [b Hb]; [lia|].
      simpl. rewrite (char_at_lookup _ _ b); [|by apply lookup_app_l_Some].
      simpl. rewrite Forall_lookup in Hl. rewrite (Hl _ _ Hb).
      apply IH; lia.
Qed.

Lemma skip_right_blanks pre c r e :
  Forall blank r -> isblank c = false ->
  length pre <= e -> e < length pre + S (length r) ->
  skip_right (pre ++ c :: r) e = Ret (length pre).
Proof.
  intros Hr Hc. induction e as [|e IH]; intros Hlo Hhi.
  - assert (length pre = 0) as E by lia. simpl.
    rewrite (char_at_lookup _ _ c); [simpl; by rewrite Hc, E|].
    by apply list_lookup_middle.
  - destruct (decide (S e = length pre)) as [E|Hne].
    + simpl. rewrite (char_at_lookup _ _ c); [simpl; by rewrite Hc, E|].
      by apply list_lookup_middle.
    + destruct (lookup_lt_is_Some_2 r (S e - S (length pre))) as [b Hb];
        [lia|].
      simpl. rewrite (char_at_lookup _ _ b).
      * simpl. rewrite Forall_lookup in Hr. rewrite (Hr _ _ Hb).
        apply IH; lia.
      * rewrite lookup_app_r by lia.
        replace (S e - length pre) with (S (S e - S (length pre))) by lia.
        done.
Qed.

Lemma copy_loop_take s n i acc :
  i + n <= length s ->
  copy_loop s i n acc = Ret (acc ++ take n (drop i s)).
Proof.
  revert i acc. induction n as [|n IH]; intros i acc Hn; simpl.
  - by rewrite take_0, app_nil_r.
  - destruct (lookup_lt_is_Some_2 s i) as [c Hc]; [lia|].
    rewrite (char_at_lookup _ _ _ Hc). simpl.
    rewrite IH by lia. rewrite (drop_S _ _ _ Hc). simpl.
    by rewrite <- app_assoc.
Qed.

Lemma recased_word_starts t i c :
  recased t i c =
  if isblank c then c else if word_starts t i then toupper c else tolower c.
Proof.
  unfold recased, word_starts. destruct (isblank c); [done|].
  destruct i as [|i]; [done|]. by destruct (t !! i).
Qed.

Lemma capitalize_loop_imap t n i :
  i + n = length t ->
  capitalize_loop (take i (imap (recased t) t) ++ drop i t) i n
    (word_starts t i)
  = Ret (imap (recased t) t).
Proof.
  revert i. induction n as [|n IH]; intros i Hn; simpl.
  - rewrite take_ge, drop_ge, app_nil_r by (rewrite ?length_imap; lia). done.
  - destruct (lookup_lt_is_Some_2 t i) as [c Hc]; [lia|].
    assert (Hlen : length (take i (imap (recased t) t)) = i)
      by (rewrite length_take, length_imap; lia).
    rewrite (char_at_lookup _ _ c).
    2:{ rewrite lookup_app_r by lia. rewrite Hlen, Nat.sub_diag.
        by rewrite lookup_drop, Nat.add_0_r. }
    simpl.
    assert (Hnext : forall x, x = recased t i c ->
              <[i:=x]> (take i (imap (recased t) t) ++ drop i t)
              = take (S i) (imap (recased t) t) ++ drop (S i) t).
    { intros x ->. rewrite insert_app_r_alt by lia.
      rewrite Hlen, Nat.sub_diag, (drop_S _ _ _ Hc). simpl.
      rewrite (take_S_r _ _ (recased t i c)).
      - by rewrite <- app_assoc.
      - by rewrite list_lookup_imap, Hc. }
    assert (Hflag : word_starts t (S i) = isblank c)
      by (simpl; by rewrite Hc).
    pose proof (recased_word_starts t i c) as Hr.
    destruct (isblank c) eqn:Hb.
    + rewrite <- Hflag, <- (IH (S i)) by lia. f_equal.
      rewrite <- (Hnext c) by done. symmetry. apply list_insert_id.
      rewrite lookup_app_r by lia. rewrite Hlen, Nat.sub_diag.
      by rewrite lookup_drop, Nat.add_0_r.
    + destruct (word_starts t i); rewrite Hnext by done;
        rewrite <- Hflag; apply IH; lia.
Qed.

Lemma has_nonblank_false s : has_nonblank s = false -> Forall blank s.
Proof.
  induction s as [|a s IH]; simpl; [constructor|].
  rewrite orb_false_iff, negb_false_iff. intros [Ha Hs].
  constructor; [done | by apply IH].
Qed.

Lemma split_left s :
  has_nonblank s = true ->
  exists l c rest, s = l ++ c :: rest /\ Forall blank l /\ isblank c = false.
Proof.
  induction s as [|a s IH]; simpl; [done|].
  destruct (isblank a) eqn:Ha; simpl.
  - intros (l & c & rest & -> & Hl & Hc)%IH.
    exists (a :: l), c, rest. repeat split; [|done]. by constructor.
  - intros _. exists [], a, s. repeat split; [constructor | done].
Qed.

Lemma split_right s :
  has_nonblank s = true ->
  exists pre c r, s = pre ++ c :: r /\ Forall blank r /\ isblank c = false.
Proof.
  induction s as [|a s IH]; simpl; [done|].
  destruct (has_nonblank s) eqn:Hs.
  - intros _. destruct IH as (pre & c & r & -> & Hr & Hc); [done|].
    by exists (a :: pre), c, r.
  - rewrite orb_false_r, negb_true_iff. intros Ha.
    exists [], a, s. repeat split; [by apply has_nonblank_false | done].
Qed.

Lemma has_nonblank_trimmed s :
  has_nonblank s = true ->
  exists l pre c r,
    s = l ++ (pre ++ [c]) ++ r /\ trimmed_of s (pre ++ [c]) /\
    Forall blank l /\ Forall blank r /\ isblank c = false /\
    (exists c0 rest, (pre ++ [c]) ++ r = c0 :: rest /\ isblank c0 = false).
Proof.
  intros (l & c0 & rest & -> & Hl & Hc0)%split_left.
  destruct (split_right (c0 :: rest)) as (pre & c & r & E & Hr & Hc).
  { simpl. by rewrite Hc0. }
  assert (E' : (pre ++ [c]) ++ r = c0 :: rest) by (by rewrite <- app_assoc).
  exists l, pre, c, r. rewrite E'. repeat split; try done.
  - exists l, r. rewrite E'. repeat split; try done.
    + exists c0. split; [|done].
      destruct pre as [|p pre]; simpl in *; congruence.
    + exists c. split; [|done]. by rewrite last_snoc.
  - by exists c0, rest.
Qed.

Lemma user_trimCapitalizeName_run object s h :
  name object = Str s -> has_nonblank s = true ->
  exists r, trimCapitalized s r /\
    user_trimCapitalizeName object h
    = Ret (if verdict h 0 then (OK, set_name object (Str r))
           else (ERR_MEMORY_ERROR, object), tail h).
Proof.
  intros Hname (l & pre & c & r & Hs & Ht & Hl & Hr & Hc & c0 & rest & E & Hc0)
    %has_nonblank_trimmed.
  set (t := pre ++ [c]) in *.
  exists (imap (recased t) t). split; [by exists t|].
  unfold user_trimCapitalizeName. rewrite Hname.
  assert (Hlen : length s = S (length l + length pre + length r)).
  { rewrite Hs. unfold t. rewrite !length_app. simpl. lia. }
  erewrite bind_Ret.
  2:{ rewrite Hs, E, skip_left_blanks; try done; [lia|].
      rewrite <- E, <- Hs. lia. }
  erewrite bind_Ret.
  2:{ rewrite Hlen. replace s with ((l ++ pre) ++ c :: r)
        by (rewrite Hs; unfold t; by rewrite <- !app_assoc).
      rewrite skip_right_blanks; try done; rewrite length_app; lia. }
  erewrite bind_Ret by apply request_verdict.
  destruct (verdict h 0); simpl; [|done].
  erewrite bind_Ret.
  2:{ rewrite copy_loop_take by (rewrite length_app; lia). simpl.
      rewrite Hs, drop_app_length.
      rewrite length_app.
      replace (length l + length pre + 1 - length l) with (length t)
        by (unfold t; rewrite length_app; simpl; lia).
      rewrite take_app_length. apply lift_Ret. }
  erewrite bind_Ret; [reflexivity|].
  pose proof (capitalize_loop_imap t (length t) 0 eq_refl) as H.
  rewrite take_0, drop_0 in H. simpl in H. rewrite H. apply lift_Ret.
Qed.

(** C8.  For a name with a character that is not blank,
    [user_trimCapitalizeName] answers [OK] whenever its buffer is granted,
    and the name it leaves is the old one without its leading and trailing
    blanks, every blank kept where it was inside, the first letter of each
    blank-delimited word in upper case and its other letters in lower case.
    The name ["  john   DOE "] becomes ["John   Doe"]. *)
Theorem user_trimCapitalizeName_spec (object : tUser) (s : cstring)
    (h : allocator) :
  name object = Str s -> has_nonblank s = true ->
  (exists r, trimCapitalized s r /\
     user_trimCapitalizeName object h
     = Ret (if verdict h 0 then (OK, set_name object (Str r))
            else (ERR_MEMORY_ERROR, object), tail h))
  /\
  (s = chars "  john   DOE " ->
   user_trimCapitalizeName object (true :: h)
   = Ret (OK, set_name object (Str (chars "John   Doe")), h)).
Proof.
  intros Hname Hs. split; [by apply user_trimCapitalizeName_run|].
  intros ->. unfold user_trimCapitalizeName. rewrite Hname. reflexivity.
Qed.

(** ** The favourite genre *)

Lemma occurrences_nonneg g s : (0 <= occurrences g s)%Z.
Proof. induction s as [|f s IH]; simpl; [lia|]. destruct (_ =? _)%Z; lia. Qed.

Lemma occurrences_out_of_range g s :
  genres_in_range s = true -> ~ (0 <= g < 8)%Z -> occurrences g s = 0%Z.
Proof.
  induction s as [|f s IH]; simpl; [done|].
  rewrite !andb_true_iff. intros [[H1 H2] Hs] Hg.
  rewrite IH by done. destruct (Z.eqb_spec (genre_of f) g); lia.
Qed.

Lemma occurrences_head f s : (1 <= occurrences (genre_of f) (f :: s))%Z.
Proof.
  simpl. rewrite Z.eqb_refl. pose proof (occurrences_nonneg (genre_of f) s).
  lia.
Qed.

Lemma count_at_alter occ g k :
  Z.to_nat g < length occ ->
  count_at (alter Z.succ (Z.to_nat g) occ) k
  = ((if decide (k = Z.to_nat g) then 1 else 0) + count_at occ k)%Z.
Proof.
  intros Hg. rewrite !nth_lookup. case_decide as E.
  - subst k. rewrite list_lookup_alter_eq.
    destruct (lookup_lt_is_Some_2 occ (Z.to_nat g) Hg) as [x ->]. simpl. lia.
  - by rewrite list_lookup_alter_ne.
Qed.

Lemma count_loop_counts s :
  forall tmp occ,
    genres_in_range s = true -> length occ = 8 ->
    exists occ',
      count_loop s tmp occ
      = Ret (from_option genre_of tmp (last s), occ') /\
      length occ' = 8 /\
      forall g, (0 <= g < 8)%Z ->
        count_at occ' (Z.to_nat g)
        = (count_at occ (Z.to_nat g) + occurrences g s)%Z.
Proof.
  induction s as [|f s IH]; intros tmp occ Hr Hlen; simpl.
  - exists occ. split; [done|]. split; [done|]. intros. lia.
  - simpl in Hr. apply andb_true_iff in Hr as [Hf Hr].
    apply andb_true_iff in Hf as [Hf1 Hf2].
    unfold increment. fold (genre_of f). rewrite Hlen.
    change (Z.of_nat 8) with 8%Z. rewrite Hf1, Hf2. simpl.
    destruct (IH (genre_of f) (alter Z.succ (Z.to_nat (genre_of f)) occ))
      as (occ' & -> & Hlen' & Hcount); [done | by rewrite length_alter|].
    exists occ'. split; [|split; [done|]].
    + rewrite last_cons. by destruct (last s).
    + intros g Hg. rewrite Hcount by done.
      rewrite count_at_alter by lia.
      destruct (Z.eqb_spec (genre_of f) g) as [->|Hne].
      * rewrite decide_True by done. lia.
      * rewrite decide_False by lia. lia.
Qed.

Lemma scan_loop_inv occ m0 tmp0 n :
  forall i tmp max,
    scan_inv occ m0 tmp0 i tmp max ->
    exists max', scan_inv occ m0 tmp0 (i + n) (scan_loop occ i n tmp max) max'.
Proof.
  induction n as [|n IH]; intros i tmp max Hinv; simpl.
  - exists max. by rewrite Nat.add_0_r.
  - replace (i + S n) with (S i + n) by lia.
    destruct Hinv as [Hle Hcase].
    assert (Hm0 : (m0 <= max)%Z) by (destruct Hcase as [[-> _]|(? & ? & ? & ? & ? & ?)]; lia).
    destruct (Z.gtb_spec (count_at occ i) max) as [Hgt|Hngt]; apply IH.
    + split.
      * intros j Hj. destruct (decide (j = i)) as [->|]; [lia|].
        specialize (Hle j). lia.
      * right. exists i. repeat split; [lia.. |].
        intros j Hj. specialize (Hle j). lia.
    + split.
      * intros j Hj. destruct (decide (j = i)) as [->|]; [lia|].
        apply Hle. lia.
      * destruct Hcase as [?|(k & ? & ?)]; [by left|].
        right. exists k. split; [lia | done].
Qed.

Lemma count_at_zeros k : count_at [0; 0; 0; 0; 0; 0; 0; 0]%Z k = 0%Z.
Proof. do 8 (destruct k as [|k]; [reflexivity|]). by destruct k. Qed.

Lemma user_getFavoriteGenre_argmax GNF m0 object s :
  favorites object = Some s -> s <> [] -> genres_in_range s = true ->
  (exists g, (m0 < occurrences g s)%Z) ->
  exists g,
    user_getFavoriteGenre GNF m0 object = Ret g /\ (0 <= g < 8)%Z /\
    (forall g', (occurrences g' s <= occurrences g s)%Z) /\
    (forall g', occurrences g' s = occurrences g s -> (g <= g')%Z).
Proof.
  intros Hfav Hne Hr [g0 Hg0].
  unfold user_getFavoriteGenre. rewrite Hfav.
  cbn [favoriteStack_duplicate obind].
  destruct (count_loop_counts s GNF [0; 0; 0; 0; 0; 0; 0; 0]%Z Hr eq_refl)
    as (occ & -> & Hlen & Hcount).
  cbn [obind].
  assert (Hocc : forall g, (0 <= g < 8)%Z ->
            count_at occ (Z.to_nat g) = occurrences g s).
  { intros g Hg. rewrite Hcount by done. by rewrite count_at_zeros. }
  (* some genre within range occurs more than [m0] times, and at least once *)
  assert (exists g1, (0 <= g1 < 8)%Z /\ (m0 < occurrences g1 s)%Z /\
                     (1 <= occurrences g1 s)%Z) as (g1 & Hg1 & Hm & Hone).
  { destruct s as [|f s]; [done|].
    assert (Hf : (0 <= genre_of f < 8)%Z).
    { simpl in Hr. apply andb_true_iff in Hr as [Hf _].
      apply andb_true_iff in Hf as [? ?]. lia. }
    pose proof (occurrences_head f s) as H1.
    destruct (decide (0 <= g0 < 8)%Z) as [Hin|Hout].
    - destruct (Z.le_gt_cases 1 (occurrences g0 (f :: s))).
      + by exists g0.
      + exists (genre_of f). split; [done|]. split; [lia | done].
    - rewrite (occurrences_out_of_range g0 (f :: s)) in Hg0 by done.
      exists (genre_of f). split; [done|]. split; [lia | done]. }
  set (tmp0 := from_option genre_of GNF (last s)).
  destruct (scan_loop_inv occ m0 tmp0 8 0 tmp0 m0) as [max [Hle Hcase]].
  { split; [intros j Hj; lia | by left]. }
  change (0 + 8) with 8 in Hle, Hcase.
  assert (Hmax : (occurrences g1 s <= max)%Z).
  { rewrite <- Hocc by done. apply Hle. lia. }
  destruct Hcase as [[-> _]|(k & Hk & -> & -> & _ & Hlow)]; [lia|].
  assert (Hk' : count_at occ k = occurrences (Z.of_nat k) s)
    by (rewrite <- Hocc by lia; by rewrite Nat2Z.id).
  exists (Z.of_nat k). split; [done|]. split; [lia|].
  rewrite Hk' in *. split.
  - intros g'. destruct (decide (0 <= g' < 8)%Z) as [Hin|Hout].
    + rewrite <- (Hocc g') by done. apply Hle. lia.
    + rewrite occurrences_out_of_range by done. lia.
  - intros g' Hg'. destruct (decide (0 <= g' < 8)%Z) as [Hin|Hout].
    + destruct (Z.le_gt_cases (Z.of_nat k) g') as [|Hlt]; [done|].
      specialize (Hlow (Z.to_nat g')). rewrite Hocc in Hlow by done. lia.
    + rewrite occurrences_out_of_range in Hg' by done. lia.
Qed.

(** C5, as the code has it.  For a user with favourites, all of one of the
    eight genres, and a scan whose maximum starts below the count of some
    genre, [user_getFavoriteGenre] returns a genre of greatest count, and
    among the genres of greatest count the one of lowest index: the scan
    visits the genre indices in increasing order and replaces the winner
    only on a strictly greater count.  Favourites added in the order Drama,
    Action, Action give Action. *)
Theorem user_getFavoriteGenre_lowest_index (GENRE_NOT_FOUND : tGenre)
    (maxOcurrences : Z) (object : tUser) (s : tFavoriteStack) :
  favorites object = Some s -> s <> [] -> genres_in_range s = true ->
  (exists g, (maxOcurrences < occurrences g s)%Z) ->
  (exists g,
     user_getFavoriteGenre GENRE_NOT_FOUND maxOcurrences object = Ret g /\
     (0 <= g < 8)%Z /\
     (forall g', (occurrences g' s <= occurrences g s)%Z) /\
     (forall g', occurrences g' s = occurrences g s -> (g <= g')%Z))
  /\
  (forall (drama action : tGenre) (u : tUser),
     (0 <= drama < 8)%Z -> (0 <= action < 8)%Z -> drama <> action ->
     (maxOcurrences < 2)%Z -> favorites u = Some [] ->
     exists u3,
       (let* '(_, u1) := user_addFavorite u {| series := {| genre := drama |} |} in
        let* '(_, u2) := user_addFavorite u1 {| series := {| genre := action |} |} in
        user_addFavorite u2 {| series := {| genre := action |} |})%alloc []
       = Ret (OK, u3, []) /\
       user_getFavoriteGenre GENRE_NOT_FOUND maxOcurrences u3 = Ret action).
Proof.
  intros Hfav Hne Hr Hm. split; [by apply user_getFavoriteGenre_argmax|].
  intros drama action u Hd Ha Hda Hm2 Hu.
  set (s3 := [favorite_of action; favorite_of action; favorite_of drama]).
  exists (set_favorites u s3). split.
  { unfold user_addFavorite, bind, request. simpl. rewrite Hu. reflexivity. }
  destruct (user_getFavoriteGenre_argmax GENRE_NOT_FOUND maxOcurrences
              (set_favorites u s3) s3) as (g & -> & _ & Hmax & _).
  - done.
  - done.
  - unfold s3, genres_in_range. simpl. unfold genre_of. simpl.
    rewrite !andb_true_iff, !Z.leb_le, !Z.ltb_lt. lia.
  - exists action. unfold s3. simpl. unfold genre_of. simpl.
    rewrite !Z.eqb_refl. destruct (drama =? action)%Z; lia.
  - f_equal. specialize (Hmax action). revert Hmax.
    unfold s3. simpl. unfold genre_of. simpl. rewrite !Z.eqb_refl.
    destruct (Z.eqb_spec action g) as [|Hag]; [done|].
    destruct (drama =? action)%Z, (drama =? g)%Z; lia.
Qed.

(** C5 as worded fails: with the favourites popped in the order genre 5,
    genre 2, each once, genre 5 is the first to reach the greatest count,
    and [user_getFavoriteGenre] returns genre 2 whatever [maxOcurrences]
    held at the start. *)
Lemma user_getFavoriteGenre_not_first_to_reach_max :
  ~ exists maxOcurrences : Z,
      forall (GENRE_NOT_FOUND : tGenre) (object : tUser) (s : tFavoriteStack),
        favorites object = Some s -> s <> [] -> genres_in_range s = true ->
        user_getFavoriteGenre GENRE_NOT_FOUND maxOcurrences object
        = Ret (spec_getFavoriteGenre GENRE_NOT_FOUND s).
Proof.
  intros [m0 H].
  specialize (H (-1)%Z
                {| username := NULL; name := NULL; mail := NULL;
                   favorites := Some [favorite_of 5; favorite_of 2] |}
                [favorite_of 5; favorite_of 2] eq_refl).
  assert (E : spec_getFavoriteGenre (-1) [favorite_of 5; favorite_of 2] = 5%Z)
    by reflexivity.
  rewrite E in H. clear E.
  unfold user_getFavoriteGenre in H. simpl in H.
  repeat match type of H with
         | context [(?a >? ?b)%Z] => destruct (Z.gtb_spec a b)
         end; (discriminate || lia || (injection H; lia) || idtac).
  all: try (specialize (H ltac:(done) eq_refl); injection H; lia).
Qed.

(** C4 on the code: when the uninitialised [maxOcurrences] happens to hold
    a negative value, an empty stack of favourites gives genre [0], the
    first of the eight genres, whatever the sentinel is. *)
Theorem user_getFavoriteGenre_empty_negative_start (GENRE_NOT_FOUND : tGenre)
    (u : tUser) :
  user_getFavoriteGenre GENRE_NOT_FOUND (-1) (set_favorites u []) = Ret 0%Z.
Proof. reflexivity. Qed.

(** X6.  With an empty stack of favourites [user_getFavoriteGenre] returns the
    sentinel exactly when the value [maxOcurrences] starts with is not
    negative; otherwise it returns genre [0]. *)
Theorem user_getFavoriteGenre_empty_nonneg_start (GENRE_NOT_FOUND : tGenre)
    (m0 : Z) (u : tUser) :
  favorites u = Some [] ->
  user_getFavoriteGenre GENRE_NOT_FOUND m0 u
  = Ret (if (0 <=? m0)%Z then GENRE_NOT_FOUND else 0%Z).
Proof.
  intros Hu. unfold user_getFavoriteGenre. rewrite Hu. simpl.
  destruct (Z.gtb_spec 0 m0), (Z.leb_spec 0 m0); (done || lia).
Qed.

(** ** Where the code departs from the specification *)

(** C1 on the code: [size] is incremented before storage is requested and
    is not restored when the request is refused; the table is left with
    [size = 1] and no storage. *)
Theorem userTable_add_growth_refused :
  userTable_add userTable_init alice [false]
  = Ret (ERR_MEMORY_ERROR, {| elements := None; size := 1 |}, []).
Proof. reflexivity. Qed.

(** C3 on the code: the error of [user_init] is dropped by [userTable_add].
    With the slot granted and the first string refused, [userTable_add]
    answers [OK], the new element holds no string, and looking the username
    up reads through a NULL pointer. *)
Theorem userTable_add_init_refused :
  userTable_add userTable_init alice [true; false]
  = Ret (OK, table_of [half_initialised_raw], []) /\
  userTable_find (table_of [half_initialised_raw]) (username alice)
  = Undefined.
Proof. split; reflexivity. Qed.

(** C7 on the code: the error of [user_init] is dropped by [user_cpy].  When
    the first allocation of the shift is refused, [userTable_remove] answers
    [OK] and the strings of the survivor bob are gone. *)
Theorem userTable_remove_copy_refused :
  userTable_remove (table_of [alice; bob; carol]) alice [false]
  = Ret (OK, table_of [half_initialised; carol], []) /\
  userTable_find (table_of [half_initialised; carol]) (username alice)
  = Undefined.
Proof. split; reflexivity. Qed.

(** C2 on the code: a table reached by three additions and one removal, all
    answering [OK], holds carol, and adding carol again reads through the
    NULL username left in the first slot instead of answering
    [ERR_DUPLICATED]. *)
Theorem userTable_add_after_refused_copy :
  exists t1 t2 t3 t4,
    userTable_add userTable_init alice [] = Ret (OK, t1, []) /\
    userTable_add t1 bob [] = Ret (OK, t2, []) /\
    userTable_add t2 carol [] = Ret (OK, t3, []) /\
    userTable_remove t3 alice [false] = Ret (OK, t4, []) /\
    username carol ∈ usernames t4 /\
    userTable_add t4 carol [] = Undefined.
Proof.
  exists (table_of [alice]), (table_of [alice; bob]),
    (table_of [alice; bob; carol]), (table_of [half_initialised; carol]).
  repeat split; try reflexivity.
  apply (bool_decide_unpack _). by vm_compute.
Qed.

(** ** The theorems at sample inputs *)

Lemma userTable_remove_absent_witness :
  userTable_remove (table_of [alice; bob]) carol [false]
  = Ret (ERR_NOT_FOUND, table_of [alice; bob], [false]).
Proof.
  apply userTable_remove_absent; [reflexivity | reflexivity |].
  apply (bool_decide_unpack _). by vm_compute.
Defined.

Lemma userTable_equals_iff_witness :
  userTable_equals
    (table_of [alice; bob])
    (table_of [user_of "bob" "Robert" "rob@uoc.edu";
               user_of "alice" "Alicia" "ali@uoc.edu"])
  = Ret true.
Proof.
  destruct (userTable_equals_iff
              (table_of [alice; bob])
              (table_of [user_of "bob" "Robert" "rob@uoc.edu";
                         user_of "alice" "Alicia" "ali@uoc.edu"])
              eq_refl eq_refl) as [(b & Hb & Hiff) _].
  rewrite Hb. f_equal. apply Hiff. split; [reflexivity|].
  intros k Hk. apply (bool_decide_unpack _) in Hk || idtac.
  apply list_elem_of_In in Hk. apply list_elem_of_In.
  simpl in *. tauto.
Defined.

Lemma user_cpy_always_OK_witness :
  user_cpy alice bob [false] = Ret (OK, half_initialised, []).
Proof.
  destruct (user_cpy_always_OK alice bob [false] eq_refl eq_refl)
    as [(dst0 & e & d & h' & Hfree & Hinit & _ & Hcpy) _].
  injection Hfree as <-. injection Hinit as _ <- <-. exact Hcpy.
Defined.

Lemma user_trimCapitalizeName_spec_witness :
  user_trimCapitalizeName (user_of "john" "  john   DOE " "john@uoc.edu")
    [true]
  = Ret (OK, user_of "john" "John   Doe" "john@uoc.edu", []).
Proof.
  exact (proj2 (user_trimCapitalizeName_spec
                  (user_of "john" "  john   DOE " "john@uoc.edu")
                  (chars "  john   DOE ") [] eq_refl eq_refl) eq_refl).
Defined.

Lemma user_getFavoriteGenre_lowest_index_witness :
  exists g,
    user_getFavoriteGenre (-1) 0
      (set_favorites alice [favorite_of 5; favorite_of 2]) = Ret g /\
    (0 <= g < 8)%Z /\
    (forall g', (occurrences g' [favorite_of 5; favorite_of 2]
                 <= occurrences g [favorite_of 5; favorite_of 2])%Z) /\
    (forall g', occurrences g' [favorite_of 5; favorite_of 2]
                = occurrences g [favorite_of 5; favorite_of 2] ->
                (g <= g')%Z).
Proof.
  apply (user_getFavoriteGenre_lowest_index (-1) 0
           (set_favorites alice [favorite_of 5; favorite_of 2])
           [favorite_of 5; favorite_of 2]);
    [reflexivity | discriminate | reflexivity |].
  exists 5%Z. reflexivity.
Defined.

Lemma userTable_add_then_find_witness :
  exists table' i e,
    userTable_add (table_of [alice]) bob [] = Ret (OK, table', drop 4 []) /\
    valid_table table' = true /\
    size table' = size (table_of [alice]) + 1 /\
    users table' = users (table_of [alice]) ++ [copy_of bob] /\
    userTable_find table' (username bob) = Ret (Some i) /\
    elem table' i = Ret e /\
    user_equals e bob = Ret true.
Proof.
  apply (userTable_add_then_find (table_of [alice]) bob []);
    [reflexivity | reflexivity | | reflexivity].
  apply (bool_decide_unpack _). by vm_compute.
Defined.

Lemma userTable_add_duplicated_witness :
  userTable_add (table_of [alice; bob]) bob [false]
  = Ret (ERR_DUPLICATED, table_of [alice; bob], [false]).
Proof.
  apply userTable_add_duplicated; [reflexivity | reflexivity |].
  apply (bool_decide_unpack _). by vm_compute.
Defined.

Lemma userTable_add_refused_witness :
  userTable_add (table_of [alice; bob]) carol [false; true]
  = Ret (ERR_MEMORY_ERROR, {| elements := None; size := 3 |}, [true]).
Proof.
  apply (userTable_add_refused (table_of [alice; bob]) carol [true]);
    [reflexivity | reflexivity |].
  apply (bool_decide_unpack _). by vm_compute.
Defined.

Lemma userTable_remove_present_witness :
  exists k e table' h',
    users (table_of [alice; bob; carol]) !! k = Some e /\
    username e = username bob /\
    userTable_remove (table_of [alice; bob; carol]) bob [] = Ret (OK, table', h') /\
    valid_table table' = true /\
    size table' + 1 = size (table_of [alice; bob; carol]) /\
    strings_of <$> users table'
    = strings_of <$> delete k (users (table_of [alice; bob; carol])) /\
    NoDup (usernames table') /\
    userTable_find table' (username bob) = Ret None.
Proof.
  apply (userTable_remove_present (table_of [alice; bob; carol]) bob []);
    [reflexivity | | reflexivity | | reflexivity].
  - apply (bool_decide_unpack _). by vm_compute.
  - apply (bool_decide_unpack _). by vm_compute.
Defined.

Lemma reachable_granted_unique_witness :
  valid_table (table_of [alice]) = true /\
  NoDup (usernames (table_of [alice])).
Proof.
  apply reachable_granted_unique.
  apply (reachable_add userTable_init alice [] OK (table_of [alice]) []);
    [constructor | reflexivity | reflexivity | reflexivity].
Defined.

Lemma user_getFavoriteGenre_empty_nonneg_start_witness :
  user_getFavoriteGenre (-1) 7 alice = Ret (-1)%Z.
Proof.
  exact (user_getFavoriteGenre_empty_nonneg_start (-1) 7 alice eq_refl).
Defined.

Lemma reachable_distinct_strings_witness :
  table_inv (table_of [half_initialised; carol]).
Proof.
  apply reachable_distinct_strings.
  apply (reached_remove (table_of [alice; bob; carol]) alice [false] OK
           (table_of [half_initialised; carol]) []);
    [| reflexivity | reflexivity].
  apply (reached_add (table_of [alice; bob]) carol [] OK
           (table_of [alice; bob; carol]) []);
    [| reflexivity | reflexivity].
  apply (reached_add (table_of [alice]) bob [] OK
           (table_of [alice; bob]) []);
    [| reflexivity | reflexivity].
  apply (reached_add userTable_init alice [] OK (table_of [alice]) []);
    [constructor | reflexivity | reflexivity].
Defined.

(** ** Users: initialisation, release, comparison, copy *)

(** X8.  [user_init] is all or nothing.  Whatever the slot held, it makes
    three requests; it answers [OK] exactly when the three are granted, and
    the user then holds the three strings given and an empty stack of
    favourites; otherwise it answers [ERR_MEMORY_ERROR], none of the three
    fields holds a string and the favourites are those the slot had. *)
Theorem user_init_all_or_nothing (object : tUser) (u n m : cstring)
    (h : allocator) :
  exists e object',
    user_init object (Str u) (Str n) (Str m) h = Ret (e, object', drop 3 h) /\
    (e = OK <-> verdict h 0 && verdict h 1 && verdict h 2 = true) /\
    (e <> OK -> e = ERR_MEMORY_ERROR) /\
    (e = OK ->
     strings_of object' = (Str u, Str n, Str m) /\
     favorites object' = Some []) /\
    (e = ERR_MEMORY_ERROR ->
     blank_slot object' = true /\ favorites object' = favorites object).
Proof.
  rewrite user_init_run.
  destruct (verdict h 0 && verdict h 1 && verdict h 2) eqn:V;
    eexists _, _; (split; [reflexivity|]).
  - repeat split; try done.
  - repeat split; try done.
    unfold blank_slot. simpl.
    by destruct (verdict h 0), (verdict h 1), (verdict h 2).
Qed.

(** X9.  [user_free] may be called twice: on a user none of whose fields
    was left unassigned it sets the three strings to NULL and empties the
    favourites, and on the user it leaves it does the same again. *)
Theorem user_free_idempotent (object : tUser) :
  releasable object = true ->
  exists freed,
    user_free object = Ret freed /\ user_free freed = Ret freed /\
    strings_of freed = (NULL, NULL, NULL) /\ favorites freed = Some [].
Proof.
  intros Hr. eexists. split; [by apply user_free_run|].
  repeat split.
Qed.

Lemma user_free_idempotent_witness :
  exists freed,
    user_free alice = Ret freed /\ user_free freed = Ret freed /\
    strings_of freed = (NULL, NULL, NULL) /\ favorites freed = Some [].
Proof. apply (user_free_idempotent alice). reflexivity. Defined.

Lemma strcmp_eqb_Str a b :
  Z.eqb (strcmp_chars a b) 0 = bool_decide (a = b).
Proof.
  destruct (Z.eqb_spec (strcmp_chars a b) 0) as [E|E];
    rewrite strcmp_chars_eq0 in E.
  - by rewrite bool_decide_eq_true_2.
  - by rewrite bool_decide_eq_false_2.
Qed.

(** X10.  [user_equals] compares the three strings and nothing else: on two
    users whose strings are readable it returns true exactly when username,
    name and mail are the same strings, whatever their favourites. *)
Theorem user_equals_strings (user1 user2 : tUser) :
  has_strings user1 = true -> has_strings user2 = true ->
  user_equals user1 user2
  = Ret (bool_decide (strings_of user1 = strings_of user2)).
Proof.
  intros (a1 & b1 & c1 & Ha1 & Hb1 & Hc1)%has_strings_inv
         (a2 & b2 & c2 & Ha2 & Hb2 & Hc2)%has_strings_inv.
  unfold user_equals, strings_of.
  rewrite Ha1, Hb1, Hc1, Ha2, Hb2, Hc2, !strcmp_Str. simpl.
  rewrite !strcmp_eqb_Str.
  repeat case_bool_decide; simpl; try done; congruence.
Qed.

Lemma user_equals_strings_witness :
  user_equals alice (set_favorites alice [favorite_of 3]) = Ret true /\
  user_equals alice bob = Ret false.
Proof.
  split.
  - exact (user_equals_strings alice (set_favorites alice [favorite_of 3])
             eq_refl eq_refl).
  - exact (user_equals_strings alice bob eq_refl eq_refl).
Defined.

(** X11.  When its three allocations are granted, [user_cpy] leaves in the
    destination the username, name and mail of the source, which
    [user_equals] then holds equal to the source, and an empty stack of
    favourites: the favourites of the source are not copied. *)
Theorem user_cpy_granted (dst src : tUser) (h : allocator) :
  releasable dst = true -> has_strings src = true ->
  verdict h 0 && verdict h 1 && verdict h 2 = true ->
  exists dst',
    user_cpy dst src h = Ret (OK, dst', drop 3 h) /\
    strings_of dst' = strings_of src /\
    favorites dst' = Some [] /\
    user_equals dst' src = Ret true.
Proof.
  intros Hd Hs Hv. exists (copy_of src).
  rewrite user_cpy_run by done. unfold copied_slot. rewrite Hv.
  repeat split. by apply user_equals_copy_of.
Qed.

Lemma user_cpy_granted_witness :
  exists dst',
    user_cpy bob (set_favorites alice [favorite_of 3]) [] = Ret (OK, dst', []) /\
    strings_of dst' = strings_of alice /\
    favorites dst' = Some [] /\
    user_equals dst' (set_favorites alice [favorite_of 3]) = Ret true.
Proof.
  exact (user_cpy_granted bob (set_favorites alice [favorite_of 3]) []
           eq_refl eq_refl eq_refl).
Defined.

(** ** Looking users up *)

Lemma index_of_app key l1 l2 i :
  index_of key (l1 ++ l2) i
  = match index_of key l1 i with
    | Some j => Some j
    | None => index_of key l2 (i + length l1)
    end.
Proof.
  revert i. induction l1 as [|e l1 IH]; intros i; simpl.
  - by rewrite Nat.add_0_r.
  - case_bool_decide; [done|]. rewrite IH. f_equal.
    destruct (index_of key l1 (S i)); [done|]. f_equal. lia.
Qed.

Lemma index_of_shift key l i :
  index_of key l (S i) = S <$> index_of key l i.
Proof.
  revert i. induction l as [|e l IH]; intros i; simpl; [done|].
  case_bool_decide; [done|]. apply IH.
Qed.

Lemma index_of_copy_of key l i :
  index_of key (copy_of <$> l) i = index_of key l i.
Proof.
  revert i. induction l as [|e l IH]; intros i; simpl; [done|].
  case_bool_decide; [done|]. apply IH.
Qed.

Lemma index_of_lt key l i j : index_of key l i = Some j -> j < i + length l.
Proof.
  intros (e & Hle & He & _)%index_of_Some.
  apply lookup_lt_Some in He. lia.
Qed.

(** X12.  On a valid table [userTable_find] returns NULL exactly when no
    element has the username sought; otherwise it returns the first
    element with that username, an element of the table. *)
Theorem userTable_find_first (table : tUserTable) (key : cstring) :
  valid_table table = true ->
  exists r,
    userTable_find table (Str key) = Ret r /\
    (r = None <-> Str key ∉ usernames table) /\
    (forall i, r = Some i ->
       i < size table /\
       (exists e, users table !! i = Some e /\ username e = Str key) /\
       (forall j e', j < i -> users table !! j = Some e' ->
                     username e' <> Str key)).
Proof.
  intros Hv. exists (index_of (Str key) (users table) 0).
  split; [by apply userTable_find_valid|]. split; [apply index_of_None|].
  intros i Hi. pose proof (index_of_lt _ _ _ _ Hi) as Hlt.
  destruct (index_of_Some _ _ _ _ Hi) as (e & _ & He & Hk & Hmin).
  rewrite Nat.sub_0_r in He, Hmin.
  split; [rewrite (valid_table_size _ Hv); lia|].
  split; [by exists e | done].
Qed.

Lemma userTable_find_first_witness :
  exists r,
    userTable_find (table_of [alice; bob; carol]) (username bob) = Ret r /\
    (r = None <-> username bob ∉ usernames (table_of [alice; bob; carol])) /\
    (forall i, r = Some i ->
       i < size (table_of [alice; bob; carol]) /\
       (exists e, users (table_of [alice; bob; carol]) !! i = Some e /\
                  username e = username bob) /\
       (forall j e', j < i ->
          users (table_of [alice; bob; carol]) !! j = Some e' ->
          username e' <> username bob)).
Proof.
  exact (userTable_find_first (table_of [alice; bob; carol]) (chars "bob")
           eq_refl).
Defined.

(** X13.  A successful [userTable_add] does not disturb the other users:
    with the slot and the three strings granted, looking up any username
    other than the one added gives the same element as before. *)
Theorem userTable_add_other_keys (table : tUserTable) (user : tUser)
    (h : allocator) :
  valid_table table = true -> has_strings user = true ->
  username user ∉ usernames table ->
  verdict h 0 && verdict h 1 && verdict h 2 && verdict h 3 = true ->
  exists table',
    userTable_add table user h = Ret (OK, table', drop 4 h) /\
    forall key, Str key <> username user ->
      userTable_find table' (Str key) = userTable_find table (Str key).
Proof.
  intros Hv Hs Hnot Hh.
  apply andb_true_iff in Hh as [Hh H3]. apply andb_true_iff in Hh as [Hh H2].
  apply andb_true_iff in Hh as [H0 H1].
  pose proof (userTable_add_run table user h Hv Hs) as Hrun.
  unfold usernames in Hnot. apply (index_of_None _ _ 0) in Hnot.
  rewrite Hnot, H0 in Hrun.
  assert (Hslot : initialised_slot user (tail h) = copy_of user).
  { unfold initialised_slot. by rewrite !verdict_tail, H1, H2, H3. }
  rewrite Hslot in Hrun.
  eexists. split; [exact Hrun|]. intros key Hkey.
  rewrite !userTable_find_valid; try done.
  - f_equal. unfold users at 1. simpl. rewrite index_of_app.
    destruct (index_of (Str key) (users table) 0); [done|]. simpl.
    rewrite bool_decide_eq_false_2; [done | congruence].
  - apply valid_table_intro.
    + rewrite length_app, (valid_table_size _ Hv). simpl. lia.
    + apply Forall_app. split; [by apply valid_table_users|].
      apply Forall_singleton. by apply copy_of_valid.
Qed.

Lemma userTable_add_other_keys_witness :
  exists table',
    userTable_add (table_of [alice; bob]) carol [] = Ret (OK, table', []) /\
    forall key, Str key <> username carol ->
      userTable_find table' (Str key)
      = userTable_find (table_of [alice; bob]) (Str key).
Proof.
  apply (userTable_add_other_keys (table_of [alice; bob]) carol []);
    [reflexivity | reflexivity | | reflexivity].
  apply (bool_decide_unpack _). by vm_compute.
Defined.

(** X14.  Adding a new user and removing it again, every request granted,
    gives back the elements the table had, favourites included, and its
    size. *)
Theorem userTable_add_remove_round_trip (table : tUserTable) (user : tUser)
    (h : allocator) :
  valid_table table = true -> has_strings user = true ->
  username user ∉ usernames table -> grants_all h = true ->
  exists t1 h1 t2 h2,
    userTable_add table user h = Ret (OK, t1, h1) /\
    userTable_remove t1 user h1 = Ret (OK, t2, h2) /\
    users t2 = users table /\ size t2 = size table.
Proof.
  intros Hv Hs Hnot Hh.
  pose proof (userTable_add_run table user h Hv Hs) as Hrun.
  unfold usernames in Hnot. apply (index_of_None _ _ 0) in Hnot.
  rewrite Hnot, grants_all_verdict in Hrun by done.
  assert (Hslot : initialised_slot user (tail h) = copy_of user).
  { unfold initialised_slot.
    by rewrite !grants_all_verdict by (by apply grants_all_tail). }
  rewrite Hslot in Hrun.
  set (t1 := {| elements := Some (users table ++ [copy_of user]);
                size := size table + 1 |}) in *.
  pose proof (valid_table_size _ Hv) as Hsz.
  assert (Hv1 : valid_table t1 = true).
  { apply valid_table_intro.
    - rewrite length_app. simpl. lia.
    - apply Forall_app. split; [by apply valid_table_users|].
      apply Forall_singleton. by apply copy_of_valid. }
  assert (Hk : index_of (username user) (users t1) 0 = Some (size table)).
  { unfold t1, users at 1. simpl. rewrite index_of_app, Hnot. simpl.
    rewrite bool_decide_eq_true_2 by done. by rewrite Hsz. }
  destruct (userTable_remove_granted t1 user (drop 4 h) (size table))
    as (h2 & Hrem & _); try done; [by apply grants_all_drop|].
  exists t1, (drop 4 h), (table_without (size table) t1), h2.
  split; [done|]. split; [done|]. split.
  - rewrite table_without_users by (done || simpl; lia).
    unfold removed.
    change (users t1) with (users table ++ [copy_of user]).
    rewrite Hsz, take_app_length, drop_app_ge by lia.
    replace (S (length (users table)) - length (users table)) with 1 by lia.
    simpl. by rewrite app_nil_r.
  - simpl. lia.
Qed.

Lemma userTable_add_remove_round_trip_witness :
  exists t1 h1 t2 h2,
    userTable_add (table_of [alice; bob]) carol [] = Ret (OK, t1, h1) /\
    userTable_remove t1 carol h1 = Ret (OK, t2, h2) /\
    users t2 = users (table_of [alice; bob]) /\
    size t2 = size (table_of [alice; bob]).
Proof.
  apply (userTable_add_remove_round_trip (table_of [alice; bob]) carol []);
    [reflexivity | reflexivity | | reflexivity].
  apply (bool_decide_unpack _). by vm_compute.
Defined.

(** ** More on removal *)

Lemma verdict_drop h n i : verdict (drop n h) i = verdict h (n + i).
Proof. unfold verdict. by rewrite lookup_drop. Qed.

Lemma tail_drop {A} (l : list A) n : tail (drop n l) = drop (S n) l.
Proof.
  revert l. induction n as [|n IH]; intros [|x l]; simpl; done.
Qed.

(** X15.  [userTable_remove] moves the later elements down by copying
    them, and a copy carries no favourites: with every request granted, the
    elements before the removed one are left as they were, and each element
    after it is replaced by one with the same three strings and an empty
    stack of favourites. *)
Theorem userTable_remove_resets_favorites (table : tUserTable)
    (user : tUser) (h : allocator) :
  valid_table table = true -> has_strings user = true ->
  username user ∈ usernames table -> grants_all h = true ->
  exists k table' h',
    userTable_remove table user h = Ret (OK, table', h') /\
    index_of (username user) (users table) 0 = Some k /\
    take k (users table') = take k (users table) /\
    forall j e, k <= j -> users table' !! j = Some e ->
      favorites e = Some [] /\
      exists e0, users table !! S j = Some e0 /\
                 strings_of e = strings_of e0.
Proof.
  intros Hv Hs Hin Hh.
  destruct (index_of_elem_of _ _ 0 Hin) as [k Hk].
  pose proof (index_of_lt _ _ _ _ Hk) as Hlt. simpl in Hlt.
  pose proof (valid_table_size _ Hv) as Hsz.
  destruct (userTable_remove_granted table user h k) as (h' & Hrun & _);
    try done.
  exists k, (table_without k table), h'.
  split; [done|]. split; [done|].
  rewrite table_without_users by (done || lia). unfold removed. split.
  - rewrite take_app_le by (rewrite length_take; lia).
    rewrite take_take. f_equal. lia.
  - intros j e Hj He.
    rewrite lookup_app_r in He by (rewrite length_take; lia).
    rewrite length_take in He.
    replace (k `min` length (users table)) with k in He by lia.
    rewrite list_lookup_fmap, lookup_drop in He.
    replace (S k + (j - k)) with (S j) in He by lia.
    destruct (users table !! S j) as [e0|]; [|done].
    injection He as <-. split; [done|]. by exists e0.
Qed.

Lemma userTable_remove_resets_favorites_witness :
  exists k table' h',
    userTable_remove
      (table_of [alice; set_favorites bob [favorite_of 3]]) alice []
    = Ret (OK, table', h') /\
    index_of (username alice)
      (users (table_of [alice; set_favorites bob [favorite_of 3]])) 0
    = Some k /\
    take k (users table')
    = take k (users (table_of [alice; set_favorites bob [favorite_of 3]])) /\
    forall j e, k <= j -> users table' !! j = Some e ->
      favorites e = Some [] /\
      exists e0,
        users (table_of [alice; set_favorites bob [favorite_of 3]]) !! S j
        = Some e0 /\
        strings_of e = strings_of e0.
Proof.
  apply (userTable_remove_resets_favorites
           (table_of [alice; set_favorites bob [favorite_of 3]]) alice []);
    [reflexivity | reflexivity | | reflexivity].
  apply (bool_decide_unpack _). by vm_compute.
Defined.

(** X16.  When the [realloc] that shrinks the storage is refused,
    [userTable_remove] answers [ERR_MEMORY_ERROR] after the elements were
    moved: the table is left without storage, its [size] one less than
    before. *)
Theorem userTable_remove_realloc_refused (table : tUserTable)
    (user : tUser) (h : allocator) (k : nat) :
  valid_table table = true -> has_strings user = true ->
  index_of (username user) (users table) 0 = Some k ->
  1 < size table ->
  verdict h (3 * (size table - S k)) = false ->
  userTable_remove table user h
  = Ret (ERR_MEMORY_ERROR,
         {| elements := None; size := size table - 1 |},
         drop (S (3 * (size table - S k))) h).
Proof.
  intros Hv Hs Hk Hsz Hh. rewrite userTable_remove_run, Hk by done.
  cbv zeta. destruct (Nat.eqb_spec (size table - 1) 0) as [E|_]; [lia|].
  rewrite verdict_drop, Nat.add_0_r, Hh. do 2 f_equal.
  apply tail_drop.
Qed.

Lemma userTable_remove_realloc_refused_witness :
  userTable_remove (table_of [alice; bob; carol]) bob [true; true; true; false]
  = Ret (ERR_MEMORY_ERROR, {| elements := None; size := 2 |}, []).
Proof.
  exact (userTable_remove_realloc_refused (table_of [alice; bob; carol]) bob
           [true; true; true; false] 1 eq_refl eq_refl eq_refl
           ltac:(simpl; lia) eq_refl).
Defined.

(** X17.  Removing the only user of a table never consults the allocator:
    it answers [OK] and leaves the empty table of [userTable_init]. *)
Theorem userTable_remove_only_user (table : tUserTable) (user : tUser)
    (h : allocator) :
  valid_table table = true -> has_strings user = true ->
  size table = 1 -> username user ∈ usernames table ->
  userTable_remove table user h = Ret (OK, userTable_init, h).
Proof.
  intros Hv Hs Hsz Hin. rewrite userTable_remove_run by done.
  destruct (index_of_elem_of _ _ 0 Hin) as [k Hk]. rewrite Hk.
  pose proof (index_of_lt _ _ _ _ Hk) as Hlt.
  rewrite <- (valid_table_size _ Hv) in Hlt.
  assert (k = 0) as -> by lia. cbv zeta. rewrite Hsz. simpl.
  by rewrite drop_0.
Qed.

Lemma userTable_remove_only_user_witness :
  userTable_remove (table_of [alice]) alice [false]
  = Ret (OK, userTable_init, [false]).
Proof.
  apply userTable_remove_only_user; [reflexivity.. |].
  apply (bool_decide_unpack _). by vm_compute.
Defined.

(** X18.  With every request granted, [userTable_remove] does not lose the
    other users: looking up any username other than the one removed finds
    an element exactly when it did before, one slot lower when the element
    came after the removed one. *)
Theorem userTable_remove_other_keys (table : tUserTable) (user : tUser)
    (h : allocator) :
  valid_table table = true -> has_strings user = true ->
  username user ∈ usernames table -> grants_all h = true ->
  exists k table' h',
    userTable_remove table user h = Ret (OK, table', h') /\
    index_of (username user) (users table) 0 = Some k /\
    forall key r, Str key <> username user ->
      userTable_find table (Str key) = Ret r ->
      userTable_find table' (Str key)
      = Ret ((fun i => if i <? k then i else pred i) <$> r).
Proof.
  intros Hv Hs Hin Hh.
  destruct (index_of_elem_of _ _ 0 Hin) as [k Hk].
  pose proof (index_of_lt _ _ _ _ Hk) as Hlt. simpl in Hlt.
  pose proof (valid_table_size _ Hv) as Hsz.
  destruct (index_of_Some _ _ _ _ Hk) as (e & _ & He & Hue & _).
  rewrite Nat.sub_0_r in He.
  destruct (userTable_remove_granted table user h k) as (h' & Hrun & _);
    try done.
  exists k, (table_without k table), h'.
  split; [done|]. split; [done|]. intros key r Hkey Hr.
  rewrite userTable_find_valid in Hr by done. injection Hr as <-.
  rewrite userTable_find_valid by (apply table_without_valid; [done | lia]).
  f_equal. rewrite table_without_users by (done || lia). unfold removed.
  rewrite <- (take_drop_middle _ _ _ He) at 3.
  rewrite !index_of_app. simpl.
  rewrite length_take. replace (k `min` length (users table)) with k by lia.
  destruct (index_of (Str key) (take k (users table)) 0) as [j|] eqn:Hj.
  - apply index_of_lt in Hj. rewrite length_take in Hj. simpl.
    destruct (Nat.ltb_spec j k); [done | lia].
  - rewrite bool_decide_eq_false_2 by congruence.
    rewrite index_of_copy_of, index_of_shift.
    destruct (index_of (Str key) (drop (S k) (users table)) k) as [j|] eqn:Hj2;
      [|done].
    destruct (index_of_Some _ _ _ _ Hj2) as (_ & Hle & _). simpl.
    destruct (Nat.ltb_spec (S j) k); [lia | done].
Qed.

Lemma userTable_remove_other_keys_witness :
  exists k table' h',
    userTable_remove (table_of [alice; bob; carol]) bob [] = Ret (OK, table', h') /\
    index_of (username bob) (users (table_of [alice; bob; carol])) 0 = Some k /\
    forall key r, Str key <> username bob ->
      userTable_find (table_of [alice; bob; carol]) (Str key) = Ret r ->
      userTable_find table' (Str key)
      = Ret ((fun i => if i <? k then i else pred i) <$> r).
Proof.
  apply (userTable_remove_other_keys (table_of [alice; bob; carol]) bob []);
    [reflexivity | reflexivity | | reflexivity].
  apply (bool_decide_unpack _). by vm_compute.
Defined.

(** X19.  After [userTable_add] has answered [ERR_MEMORY_ERROR] the table
    cannot be used any more: it says it has elements and has no storage, so
    every lookup, addition or removal reads through the NULL pointer. *)
Theorem userTable_unusable_after_refused_add (table : tUserTable)
    (user : tUser) (h : allocator) :
  valid_table table = true -> has_strings user = true ->
  username user ∉ usernames table ->
  exists table',
    userTable_add table user (false :: h) = Ret (ERR_MEMORY_ERROR, table', h) /\
    (forall key, userTable_find table' key = Undefined) /\
    (forall user' h', userTable_add table' user' h' = Undefined) /\
    (forall user' h', userTable_remove table' user' h' = Undefined) /\
    (forall table2, userTable_equals table2 table' = Undefined \/
                    userTable_equals table2 table' = Ret false).
Proof.
  intros Hv Hs Hnot.
  pose proof (userTable_add_run table user (false :: h) Hv Hs) as Hrun.
  unfold usernames in Hnot. apply (index_of_None _ _ 0) in Hnot.
  rewrite Hnot in Hrun. simpl in Hrun.
  eexists. split; [exact Hrun|].
  replace (size table + 1) with (S (size table)) by lia.
  split; [done|]. split; [done|]. split; [done|].
  intros table2. unfold userTable_equals. cbn [size].
  destruct (size table2 =? S (size table)) eqn:E; [|by right].
  apply Nat.eqb_eq in E. rewrite E. by left.
Qed.

Lemma userTable_unusable_after_refused_add_witness :
  exists table',
    userTable_add (table_of [alice]) bob [false] = Ret (ERR_MEMORY_ERROR, table', []) /\
    (forall key, userTable_find table' key = Undefined) /\
    (forall user' h', userTable_add table' user' h' = Undefined) /\
    (forall user' h', userTable_remove table' user' h' = Undefined) /\
    (forall table2, userTable_equals table2 table' = Undefined \/
                    userTable_equals table2 table' = Ret false).
Proof.
  apply (userTable_unusable_after_refused_add (table_of [alice]) bob []);
    [reflexivity | reflexivity |].
  apply (bool_decide_unpack _). by vm_compute.
Defined.

(** ** Equality of tables, again *)

(** X20.  When the usernames of the second table are pairwise distinct,
    [userTable_equals] returns true exactly when the two tables hold the
    same usernames, in any order; and a valid table always equals
    itself. *)
Theorem userTable_equals_permutation (t1 t2 : tUserTable) :
  valid_table t1 = true -> valid_table t2 = true ->
  NoDup (usernames t2) ->
  (userTable_equals t1 t2 = Ret true <-> usernames t1 ≡ₚ usernames t2) /\
  userTable_equals t1 t1 = Ret true.
Proof.
  intros Hv1 Hv2 Hnd.
  assert (Hsz : forall t, valid_table t = true -> size t = length (usernames t)).
  { intros t Ht. unfold usernames. rewrite length_fmap.
    by apply valid_table_size. }
  split.
  - destruct (userTable_equals_valid t1 t2 Hv1 Hv2) as (b & -> & Hb).
    split.
    + intros [= ->]. destruct (proj1 Hb eq_refl) as [Hsize Hsub].
      symmetry. apply submseteq_length_Permutation.
      * by apply NoDup_submseteq.
      * rewrite <- !Hsz by done. lia.
    + intros Hp. f_equal. apply Hb. split.
      * rewrite !Hsz by done. by rewrite Hp.
      * intros k Hk. by rewrite Hp.
  - destruct (userTable_equals_valid t1 t1 Hv1 Hv1) as (b & -> & Hb).
    f_equal. by apply Hb.
Qed.

Lemma userTable_equals_permutation_witness :
  (userTable_equals (table_of [alice; bob]) (table_of [bob; alice]) = Ret true
   <-> usernames (table_of [alice; bob]) ≡ₚ usernames (table_of [bob; alice]))
  /\ userTable_equals (table_of [alice; bob]) (table_of [alice; bob]) = Ret true.
Proof.
  apply (userTable_equals_permutation (table_of [alice; bob])
           (table_of [bob; alice])); [reflexivity | reflexivity |].
  apply (bool_decide_unpack _). by vm_compute.
Defined.

(** ** Name normalisation, again *)

Lemma isblank_toupper c : isblank (toupper c) = isblank c.
Proof. destruct c as [[] [] [] [] [] [] [] []]; reflexivity. Qed.

Lemma isblank_tolower c : isblank (tolower c) = isblank c.
Proof. destruct c as [[] [] [] [] [] [] [] []]; reflexivity. Qed.

Lemma toupper_toupper c : toupper (toupper c) = toupper c.
Proof. destruct c as [[] [] [] [] [] [] [] []]; reflexivity. Qed.

Lemma tolower_tolower c : tolower (tolower c) = tolower c.
Proof. destruct c as [[] [] [] [] [] [] [] []]; reflexivity. Qed.

Lemma isblank_recased t i c : isblank (recased t i c) = isblank c.
Proof.
  rewrite recased_word_starts. destruct (isblank c) eqn:E; [done|].
  destruct (word_starts t i); by rewrite ?isblank_toupper, ?isblank_tolower.
Qed.

Lemma word_starts_recased t i :
  word_starts (imap (recased t) t) i = word_starts t i.
Proof.
  destruct i as [|i]; [done|]. simpl. rewrite list_lookup_imap.
  destruct (t !! i) as [p|]; [|done]. simpl. apply isblank_recased.
Qed.

Lemma recased_idempotent t :
  imap (recased (imap (recased t) t)) (imap (recased t) t)
  = imap (recased t) t.
Proof.
  apply list_eq. intros i. rewrite !list_lookup_imap.
  destruct (t !! i) as [c|]; [|done]. simpl. f_equal.
  rewrite (recased_word_starts _ i (recased t i c)).
  rewrite isblank_recased, word_starts_recased.
  rewrite (recased_word_starts t i c).
  destruct (isblank c); [done|].
  destruct (word_starts t i);
    by rewrite ?toupper_toupper, ?tolower_tolower.
Qed.

Lemma trimmed_of_trimmed r t :
  (exists c, head r = Some c /\ isblank c = false) ->
  (exists c, last r = Some c /\ isblank c = false) ->
  trimmed_of r t -> t = r.
Proof.
  intros (c & Hh & Hc) (c' & Hl & Hc') (l & r0 & -> & Hbl & Hbr & _ & _).
  destruct l as [|b l].
  - destruct r0 as [|b r0 _] using rev_ind; [by rewrite app_nil_r|].
    exfalso. simpl in Hl. rewrite app_assoc, last_snoc in Hl.
    injection Hl as ->. apply Forall_app in Hbr as [_ Hb].
    rewrite Forall_singleton in Hb. unfold blank in Hb. congruence.
  - exfalso. simpl in Hh. injection Hh as ->.
    apply Forall_cons in Hbl as [Hb _]. unfold blank in Hb. congruence.
Qed.

Lemma trimCapitalized_shape s r :
  trimCapitalized s r ->
  (exists c, head r = Some c /\ isblank c = false) /\
  (exists c, last r = Some c /\ isblank c = false) /\
  length r <= length s /\
  imap (recased r) r = r.
Proof.
  intros (t & (l & r0 & -> & _ & _ & (c & Hh & Hc) & (c' & Hl & Hc')) & ->).
  split; [|split; [|split]].
  - destruct t as [|x t]; [done|]. injection Hh as ->.
    exists (recased (c :: t) 0 c). split; [done|].
    by rewrite isblank_recased.
  - rewrite last_lookup in Hl. rewrite last_lookup, length_imap.
    rewrite list_lookup_imap, Hl. simpl. eexists. split; [done|].
    by rewrite isblank_recased.
  - rewrite length_imap, !length_app. lia.
  - apply recased_idempotent.
Qed.

(** X21.  [user_trimCapitalizeName] is idempotent.  On a name with a
    character that is not blank, with its buffer granted, it leaves a name
    that begins and ends with a character that is not blank and is no
    longer than the old one; applied again, it leaves that name as it
    is. *)
Theorem user_trimCapitalizeName_idempotent (object : tUser) (s : cstring)
    (h : allocator) :
  name object = Str s -> has_nonblank s = true ->
  verdict h 0 = true -> verdict h 1 = true ->
  exists r,
    user_trimCapitalizeName object h
    = Ret (OK, set_name object (Str r), tail h) /\
    user_trimCapitalizeName (set_name object (Str r)) (tail h)
    = Ret (OK, set_name object (Str r), tail (tail h)) /\
    length r <= length s /\
    (exists c, head r = Some c /\ isblank c = false) /\
    (exists c, last r = Some c /\ isblank c = false).
Proof.
  intros Hname Hs H0 H1.
  destruct (user_trimCapitalizeName_run object s h Hname Hs)
    as (r & Hr & Hrun).
  rewrite H0 in Hrun.
  destruct (trimCapitalized_shape s r Hr) as (Hhead & Hlast & Hlen & Hidem).
  assert (Hnb : has_nonblank r = true).
  { destruct Hhead as (c & Hh & Hc). destruct r as [|x r]; [done|].
    injection Hh as ->. simpl. by rewrite Hc. }
  destruct (user_trimCapitalizeName_run (set_name object (Str r)) r (tail h)
              eq_refl Hnb) as (r' & (t & Ht & ->) & Hrun').
  rewrite verdict_tail, H1 in Hrun'.
  apply (trimmed_of_trimmed r t Hhead Hlast) in Ht. subst t.
  rewrite Hidem in Hrun'.
  exists r. repeat split; done.
Qed.

Lemma user_trimCapitalizeName_idempotent_witness :
  exists r,
    user_trimCapitalizeName (user_of "john" "  john   DOE " "j@uoc.edu") []
    = Ret (OK, set_name (user_of "john" "  john   DOE " "j@uoc.edu") (Str r),
           tail []) /\
    user_trimCapitalizeName
      (set_name (user_of "john" "  john   DOE " "j@uoc.edu") (Str r)) (tail [])
    = Ret (OK, set_name (user_of "john" "  john   DOE " "j@uoc.edu") (Str r),
           tail (tail [])) /\
    length r <= length (chars "  john   DOE ") /\
    (exists c, head r = Some c /\ isblank c = false) /\
    (exists c, last r = Some c /\ isblank c = false).
Proof.
  exact (user_trimCapitalizeName_idempotent
           (user_of "john" "  john   DOE " "j@uoc.edu")
           (chars "  john   DOE ") [] eq_refl eq_refl eq_refl eq_refl).
Defined.

Lemma skip_left_all_blank s n k :
  Forall blank s -> k <= length s -> length s - k <= n ->
  skip_left s k n = Ret (length s).
Proof.
  intros Hs. revert k. induction n as [|n IH]; intros k Hk Hn.
  - assert (k = length s) as -> by lia. simpl. unfold char_at.
    rewrite lookup_ge_None_2, Nat.eqb_refl by lia. done.
  - destruct (decide (k = length s)) as [->|Hne].
    + simpl. unfold char_at.
      rewrite lookup_ge_None_2, Nat.eqb_refl by lia. done.
    + destruct (lookup_lt_is_Some_2 s k) as [b Hb]; [lia|].
      simpl. rewrite (char_at_lookup _ _ _ Hb). simpl.
      rewrite Forall_lookup in Hs. rewrite (Hs _ _ Hb).
      apply IH; lia.
Qed.

Lemma skip_right_all_blank s e :
  Forall blank s -> e < length s -> skip_right s e = Undefined.
Proof.
  intros Hs. induction e as [|e IH]; intros He;
    destruct (lookup_lt_is_Some_2 s _ He) as [b Hb];
    simpl; rewrite (char_at_lookup _ _ _ Hb); simpl;
    rewrite Forall_lookup in Hs; rewrite (Hs _ _ Hb); [done|].
  apply IH. lia.
Qed.

(** X22.  On a name without any character that is not blank, the empty
    name included, [user_trimCapitalizeName] is undefined: the search for
    the last such character runs below index 0, which for the unsigned
    [nameEnd] is an index far outside the name. *)
Theorem user_trimCapitalizeName_all_blank (object : tUser) (s : cstring)
    (h : allocator) :
  name object = Str s -> has_nonblank s = false ->
  user_trimCapitalizeName object h = Undefined.
Proof.
  intros Hname Hs%has_nonblank_false.
  unfold user_trimCapitalizeName. rewrite Hname.
  erewrite bind_Ret
    by (rewrite skip_left_all_blank by (done || lia); apply lift_Ret).
  unfold bind, lift. destruct s as [|c s]; [done|].
  cbn [length]. rewrite skip_right_all_blank; [done | done | simpl; lia].
Qed.

Lemma user_trimCapitalizeName_all_blank_witness :
  user_trimCapitalizeName (user_of "john" "   " "j@uoc.edu") [] = Undefined.
Proof.
  exact (user_trimCapitalizeName_all_blank (user_of "john" "   " "j@uoc.edu")
           (chars "   ") [] eq_refl eq_refl).
Defined.

(** ** The favourite genre, again *)

Lemma count_loop_out_of_range s :
  forall tmp occ,
    length occ = 8 -> genres_in_range s = false ->
    count_loop s tmp occ = Undefined.
Proof.
  induction s as [|f s IH]; intros tmp occ Hlen Hr; [done|].
  simpl in Hr. simpl. unfold increment. fold (genre_of f). rewrite Hlen.
  change (Z.of_nat 8) with 8%Z.
  destruct ((0 <=? genre_of f)%Z && (genre_of f <? 8)%Z); [|done].
  simpl in *. apply IH; [by rewrite length_alter | done].
Qed.

(** X23.  A favourite whose genre is not one of the eight indices [0..7],
    anywhere in the stack, makes [user_getFavoriteGenre] undefined: its
    count is written outside the array [genreOcurrences]. *)
Theorem user_getFavoriteGenre_out_of_range (GENRE_NOT_FOUND : tGenre)
    (maxOcurrences : Z) (object : tUser) (s : tFavoriteStack) :
  favorites object = Some s -> genres_in_range s = false ->
  user_getFavoriteGenre GENRE_NOT_FOUND maxOcurrences object = Undefined.
Proof.
  intros Hfav Hr. unfold user_getFavoriteGenre. rewrite Hfav.
  cbn [favoriteStack_duplicate obind].
  by rewrite count_loop_out_of_range.
Qed.

Lemma user_getFavoriteGenre_out_of_range_witness :
  user_getFavoriteGenre (-1) 0
    (set_favorites alice [favorite_of 2; favorite_of 8; favorite_of 1])
  = Undefined.
Proof.
  exact (user_getFavoriteGenre_out_of_range (-1) 0
           (set_favorites alice [favorite_of 2; favorite_of 8; favorite_of 1])
           [favorite_of 2; favorite_of 8; favorite_of 1] eq_refl eq_refl).
Defined.

(** X24.  When the value [maxOcurrences] starts with is not below the count
    of any genre, the scan never replaces the winner, and
    [user_getFavoriteGenre] returns what the counting loop left in
    [tmpGenre]: the genre of the favourite popped last, the oldest one, or
    the sentinel when there is no favourite. *)
Theorem user_getFavoriteGenre_high_start (GENRE_NOT_FOUND : tGenre)
    (maxOcurrences : Z) (object : tUser) (s : tFavoriteStack) :
  favorites object = Some s -> genres_in_range s = true ->
  (forall g, (occurrences g s <= maxOcurrences)%Z) ->
  user_getFavoriteGenre GENRE_NOT_FOUND maxOcurrences object
  = Ret (from_option genre_of GENRE_NOT_FOUND (last s)).
Proof.
  intros Hfav Hr Hhigh. unfold user_getFavoriteGenre. rewrite Hfav.
  cbn [favoriteStack_duplicate obind].
  destruct (count_loop_counts s GENRE_NOT_FOUND
              [0; 0; 0; 0; 0; 0; 0; 0]%Z Hr eq_refl)
    as (occ & -> & Hlen & Hcount).
  cbn [obind]. f_equal.
  set (tmp0 := from_option genre_of GENRE_NOT_FOUND (last s)).
  destruct (scan_loop_inv occ maxOcurrences tmp0 8 0 tmp0 maxOcurrences)
    as [max [Hle Hcase]].
  { split; [intros j Hj; lia | by left]. }
  change (0 + 8) with 8 in Hle, Hcase.
  destruct Hcase as [[_ ->]|(k & Hk & _ & -> & Hlt & _)]; [done|].
  exfalso. specialize (Hcount (Z.of_nat k) ltac:(lia)).
  rewrite Nat2Z.id, count_at_zeros in Hcount.
  specialize (Hhigh (Z.of_nat k)). lia.
Qed.

Lemma user_getFavoriteGenre_high_start_witness :
  user_getFavoriteGenre (-1) 2
    (set_favorites alice [favorite_of 4; favorite_of 4; favorite_of 6])
  = Ret 6%Z.
Proof.
  apply (user_getFavoriteGenre_high_start (-1) 2
           (set_favorites alice [favorite_of 4; favorite_of 4; favorite_of 6])
           [favorite_of 4; favorite_of 4; favorite_of 6] eq_refl eq_refl).
  intros g. cbv [occurrences genre_of favorite_of genre series film].
  destruct (Z.eqb_spec 4 g), (Z.eqb_spec 6 g); lia.
Defined.


